(** * rbpi-reminder: event store, reconciliation and reminder decisions

    A shallow embedding of the Go sources [src/log.go] (the rotating log
    writer and the local event store), [src/reminder.go] (the reminder
    loop, its four guards and [loadConfig]), [src/utils.go] ([startOfDay]
    and [writeFileAtomically]), [src/webserver.go] (the session manager)
    and of the loop of [main.go], followed by the properties of the design
    document checked against them and by further properties of the code.

    Conventions of the embedding:
    - [time.Time] is an instant, an integer count of nanoseconds since the
      zero time (January 1, year 1, 00:00:00 UTC), together with a
      presentation zone.  Comparisons, [Sub] and [Truncate] look at the
      instant only, as in Go.  Instants are unbounded integers.
    - [time.Duration] is an [int64] count of nanoseconds; [Sub] saturates.
    - every call of [time.Now()] made while one tick is evaluated reads the
      same instant, the parameter [now].
    - the events directory is a finite map from file names to contents; it
      holds regular files only, and identifiers are plain file-name
      components ([path.Join] does no rewriting).
    - the store mutex [syncEvent] and the tick mutex [reminding] are not
      modelled: every function below runs alone. *)

From Stdlib Require Import ZArith Lia Bool Ascii.
From stdpp Require Import gmap strings list fin_maps pretty.

Local Open Scope Z_scope.

(** ** The fragment of package [time] that the program uses *)

Module GoTime.

Definition Duration := Z.

Definition Nanosecond : Duration := 1.
Definition Microsecond : Duration := 1000 * Nanosecond.
Definition Millisecond : Duration := 1000 * Microsecond.
Definition Second : Duration := 1000 * Millisecond.
Definition Minute : Duration := 60 * Second.
Definition Hour : Duration := 60 * Minute.

Definition minDuration : Duration := - 2 ^ 63.
Definition maxDuration : Duration := 2 ^ 63 - 1.

Inductive Location :=
| UTC
| Local
| Zone (name : string).

Record Time := mkTime { instant : Z; location : Location }.

(** [time.Time{}] *)
Definition zeroTime : Time := mkTime 0 UTC.

Definition IsZero (t : Time) : bool := instant t =? 0.
Definition After (t u : Time) : bool := instant u <? instant t.
Definition Before (t u : Time) : bool := instant t <? instant u.
Definition Equal (t u : Time) : bool := instant t =? instant u.

Definition Add (t : Time) (d : Duration) : Time :=
  mkTime (instant t + d) (location t).

(** [t.Sub(u)]: the difference, or the nearest representable duration *)
Definition Sub (t u : Time) : Duration :=
  let d := instant t - instant u in
  if d <? minDuration then minDuration
  else if maxDuration <? d then maxDuration
  else d.

(** [t.Truncate(d)] rounds the instant down to a multiple of [d] counted
    from the zero time; it ignores the zone. *)
Definition Truncate (t : Time) (d : Duration) : Time :=
  if d <=? 0 then t else Add t (- (instant t mod d)).

(** [t.In(loc)]: same instant, other presentation zone *)
Definition In (t : Time) (loc : Location) : Time :=
  mkTime (instant t) loc.

End GoTime.

Import GoTime.

(** ** Data model ([calreader.go], [log.go], the configuration) *)

Record CalendarEvent := mkCalendarEvent {
  ID : string;
  StartTime : Time;
  EndTime : Time;
  TimeZone : string;
  Description : string
}.

Record LocalEvent := mkLocalEvent {
  Event : CalendarEvent;
  StartAnnounced : bool;
  CheckStartAnnounced : bool;
  EndAnnounced : bool;
  LastTimeReminded : Time
}.

Definition DefaultNotificationRepeats : Z := 3.

(** The fields of [Config] read by the code below. *)
Record Config := mkConfig {
  DebugLogEnabled : bool;
  EventsPath : string;
  NotificationRepeats : Z
}.

Inductive Error :=
| EDecodeConfig
| EReadDir
| EReadFile (name : string)
| EUnmarshal (name : string)
| EMarshal
| EWriteFile (name : string)
| ERemove (name : string)
| ERename (oldname newname : string)
| ELoadEvent (name : string) (cause : Error).

Inductive Result (A : Type) :=
| Ok (a : A)
| Err (e : Error).

Arguments Ok {A} a.
Arguments Err {A} e.

(** [loadConfig], main configuration only: [decoded] is what the YAML
    decoder produced for [SysConfig], or its error. *)
Definition loadConfig (decoded : Result Config) : Result Config :=
  match decoded with
  | Err e => Err e
  | Ok c =>
      if NotificationRepeats c <=? 0
      then Ok (mkConfig (DebugLogEnabled c) (EventsPath c) DefaultNotificationRepeats)
      else Ok c
  end.

(** ** Guards on one event ([log.go] and [reminder.go]) *)

Definition scheduledForNow (now : Time) (e : LocalEvent) : bool :=
  if IsZero (StartTime (Event e)) then false
  else if After now (StartTime (Event e)) && Before now (EndTime (Event e))
       then true
       else false.

Definition scheduledNearEnd (now : Time) (e : LocalEvent) : bool :=
  if IsZero (EndTime (Event e)) then false
  else if After now (Add (EndTime (Event e)) (- Minute))
          && Before now (Add (EndTime (Event e)) Minute)
       then true
       else false.

Definition scheduledForToday (now : Time) (e : LocalEvent) : bool :=
  Equal (Truncate (StartTime (Event e)) (24 * Hour)) (Truncate now (24 * Hour)).

Definition shouldAnnounceEventStart (now : Time) (e : LocalEvent) : bool :=
  if negb (StartAnnounced e) && scheduledForToday now e && scheduledForNow now e
  then true
  else false.

Definition shouldCheckEventStarted (now : Time) (e : LocalEvent) : bool :=
  if negb (scheduledForToday now e) || negb (StartAnnounced e) || CheckStartAnnounced e
  then false
  else if After now (Add (StartTime (Event e)) Minute) then true
  else false.

Definition shouldAnnounceEventEnd (now : Time) (e : LocalEvent) : bool :=
  if negb (EndAnnounced e) && scheduledForToday now e && scheduledNearEnd now e
  then true
  else false.

(** Go's [/] on integers truncates toward zero.  The divisor is
    [SysConfig.NotificationRepeats], positive in every configuration that
    [loadConfig] installs. *)
Definition reminderInterval (cfg : Config) (e : LocalEvent) : Duration :=
  Z.quot (Sub (EndTime (Event e)) (StartTime (Event e))) (NotificationRepeats cfg).

Definition shouldRemindEvent (cfg : Config) (now : Time) (e : LocalEvent) : bool :=
  if EndAnnounced e
     || IsZero (EndTime (Event e))
     || Before now (StartTime (Event e))
     || After now (EndTime (Event e))
  then false
  else if After now (Add (LastTimeReminded e) (reminderInterval cfg e)) then true
  else false.

(** ** Fragment of package [strings] *)

(** [strings.HasSuffix]: some tail of [s] is [suffix]. *)
Fixpoint HasSuffix (s suffix : string) : bool :=
  if String.eqb s suffix then true
  else match s with
       | EmptyString => false
       | String _ rest => HasSuffix rest suffix
       end.

(** [strings.TrimSuffix]: [s] without the trailing [suffix], or [s]
    itself when it does not end in [suffix]. *)
Fixpoint TrimSuffix (s suffix : string) : string :=
  if String.eqb s suffix then EmptyString
  else match s with
       | EmptyString => EmptyString
       | String c rest => String c (TrimSuffix rest suffix)
       end.

(** ** The events directory and the effects of the program *)

(** What a file holds: the bytes [json.MarshalIndent] produced for a
    [LocalEvent] (which [json.Unmarshal] reads back), or bytes that
    [json.Unmarshal] rejects.  An empty file is [Corrupt ""]. *)
Inductive FileContent :=
| Json (e : LocalEvent)
| Corrupt (bytes : string).

(** System calls that change a directory. *)
Inductive FsOp :=
| OpCreateTrunc (name : string)
| OpWrite (name : string) (data : FileContent)
| OpRename (oldname newname : string)
| OpRemove (name : string).

Definition apply_op (dir : gmap string FileContent) (op : FsOp)
  : gmap string FileContent :=
  match op with
  | OpCreateTrunc name => <[name := Corrupt ""]> dir
  | OpWrite name data => <[name := data]> dir
  | OpRename oldname newname =>
      match dir !! oldname with
      | Some c => <[newname := c]> (delete oldname dir)
      | None => dir
      end
  | OpRemove name => delete name dir
  end.

Definition run_ops (ops : list FsOp) (dir : gmap string FileContent)
  : gmap string FileContent :=
  fold_left apply_op ops dir.

(** The directory as a crash can leave it: after any prefix of [ops]. *)
Definition crash_states (ops : list FsOp) (dir : gmap string FileContent)
  : list (gmap string FileContent) :=
  map (fun k => run_ops (take k ops) dir) (seq 0 (S (length ops))).

(** Outcomes the program does not control. *)
Record Env := mkEnv {
  LoadLocation : string -> option Location;
  mkdir_fails : bool;
  marshal_fails : LocalEvent -> bool;
  write_fails : string -> bool;
  rename_fails : string -> string -> bool;
  remove_fails : string -> bool
}.

Inductive Decision :=
| AnnounceStart
| CheckStarted
| Remind
| AnnounceEnd.

Inductive LogLine :=
| LogDebug (msg : string)
| LogTimezoneFallback (tz id : string)
| LogLoadEventsFailed (cause : Error).

(** What the program acts on: the events directory ([None] while it does
    not exist), the announcements handed to [announceTask] (oldest first,
    each with the identifier of its event) and the log. *)
Record World := mkWorld {
  disk : option (gmap string FileContent);
  spoken : list (Decision * string);
  logged : list LogLine
}.

Definition M (A : Type) : Type := World -> Result A * World.

Definition ret {A} (a : A) : M A := fun w => (Ok a, w).

Definition fail {A} (e : Error) : M A := fun w => (Err e, w).

Definition bind {A B} (m : M A) (k : A -> M B) : M B :=
  fun w =>
    match m w with
    | (Ok a, w') => k a w'
    | (Err e, w') => (Err e, w')
    end.

(** Run [m] and hand its error to the caller as a value
    ([x, err := m()]). *)
Definition attempt {A} (m : M A) : M (Result A) :=
  fun w => let '(r, w') := m w in (Ok r, w').

Notation "'do' x <- m ;; k" := (bind m (fun x => k))
  (at level 10, x name, m at level 99, k at level 200).
Notation "'exec' m ;; k" := (bind m (fun _ => k))
  (at level 10, m at level 99, k at level 200).

Definition setDisk (dir : gmap string FileContent) : M unit :=
  fun w => (Ok tt, mkWorld (Some dir) (spoken w) (logged w)).

Definition logLine (l : LogLine) : M unit :=
  fun w => (Ok tt, mkWorld (disk w) (spoken w) (logged w ++ [l])).

Definition logDebug (cfg : Config) (msg : string) : M unit :=
  if DebugLogEnabled cfg then logLine (LogDebug msg) else ret tt.

Definition announceTask (d : Decision) (e : LocalEvent) : M unit :=
  fun w => (Ok tt, mkWorld (disk w) (spoken w ++ [(d, ID (Event e))]) (logged w)).

(** [os.Stat] then [os.MkdirAll], whose error the caller drops. *)
Definition ensureEventsDir (env : Env) : M unit :=
  fun w =>
    match disk w with
    | Some _ => (Ok tt, w)
    | None => if mkdir_fails env then (Ok tt, w)
              else (Ok tt, mkWorld (Some ∅) (spoken w) (logged w))
    end.

Definition os_ReadDir : M (list string) :=
  fun w =>
    match disk w with
    | None => (Err EReadDir, w)
    | Some dir => (Ok (map_to_list dir).*1, w)
    end.

(** [os.WriteFile] opens with [O_WRONLY|O_CREATE|O_TRUNC], writes the
    buffer and closes. *)
Definition os_WriteFile_ops (name : string) (data : FileContent) : list FsOp :=
  [OpCreateTrunc name; OpWrite name data].

Definition os_WriteFile (env : Env) (name : string) (data : FileContent) : M unit :=
  fun w =>
    match disk w with
    | None => (Err (EWriteFile name), w)
    | Some dir =>
        if write_fails env name then (Err (EWriteFile name), w)
        else setDisk (run_ops (os_WriteFile_ops name data) dir) w
    end.

Definition os_Remove (env : Env) (name : string) : M unit :=
  fun w =>
    match disk w with
    | None => (Err (ERemove name), w)
    | Some dir =>
        if remove_fails env name then (Err (ERemove name), w)
        else match dir !! name with
             | None => (Err (ERemove name), w)
             | Some _ => setDisk (run_ops [OpRemove name] dir) w
             end
    end.

Definition os_Rename (env : Env) (oldname newname : string) : M unit :=
  fun w =>
    match disk w with
    | None => (Err (ERename oldname newname), w)
    | Some dir =>
        if rename_fails env oldname newname then (Err (ERename oldname newname), w)
        else match dir !! oldname with
             | None => (Err (ERename oldname newname), w)
             | Some _ => setDisk (run_ops [OpRename oldname newname] dir) w
             end
    end.

Definition json_MarshalIndent (env : Env) (e : LocalEvent) : M FileContent :=
  if marshal_fails env e then fail EMarshal else ret (Json e).

(** ** The event store ([log.go]) *)

Definition loadEvent (name : string) : M LocalEvent :=
  fun w =>
    match disk w with
    | None => (Err (EReadFile name), w)
    | Some dir =>
        match dir !! name with
        | None => (Err (EReadFile name), w)
        | Some (Corrupt _) => (Err (EUnmarshal name), w)
        | Some (Json e) => (Ok e, w)
        end
    end.

Definition saveEventLocally (env : Env) (event : CalendarEvent) : M unit :=
  exec ensureEventsDir env ;;
  let e := mkLocalEvent event false false false zeroTime in
  do existing <- attempt (loadEvent (ID event +:+ ".json")) ;;
  let e :=
    match existing with
    | Ok existingEvent =>
        mkLocalEvent event
          (StartAnnounced existingEvent)
          (CheckStartAnnounced existingEvent)
          (EndAnnounced existingEvent)
          (LastTimeReminded existingEvent)
    | Err _ => e
    end in
  do eJson <- json_MarshalIndent env e ;;
  os_WriteFile env (ID (Event e) +:+ ".json") eJson.

(** The time-zone fix of [loadTodayEvents]. *)
Definition inZone (loc : Location) (e : LocalEvent) : LocalEvent :=
  mkLocalEvent
    (mkCalendarEvent (ID (Event e))
       (In (StartTime (Event e)) loc)
       (In (EndTime (Event e)) loc)
       (TimeZone (Event e))
       (Description (Event e)))
    (StartAnnounced e) (CheckStartAnnounced e) (EndAnnounced e)
    (In (LastTimeReminded e) loc).

Fixpoint loadTodayEvents_loop (env : Env) (now : Time)
    (files : list string) (events : list LocalEvent) : M (list LocalEvent) :=
  match files with
  | [] => ret events
  | file :: rest =>
      do r <- attempt (loadEvent file) ;;
      match r with
      | Err err => fail (ELoadEvent file err)
      | Ok e =>
          if negb (scheduledForToday now e) || After now (EndTime (Event e))
          then loadTodayEvents_loop env now rest events
          else if negb (String.eqb (TimeZone (Event e)) "")
          then
            do loc <- match LoadLocation env (TimeZone (Event e)) with
                   | Some loc => ret loc
                   | None =>
                       exec logLine (LogTimezoneFallback (TimeZone (Event e)) (ID (Event e))) ;;
                       ret Local
                   end ;;
            let e := inZone loc e in
            if After now (EndTime (Event e))
            then loadTodayEvents_loop env now rest events
            else loadTodayEvents_loop env now rest (events ++ [e])
          else loadTodayEvents_loop env now rest (events ++ [e])
      end
  end.

Definition loadTodayEvents (env : Env) (now : Time) : M (list LocalEvent) :=
  do files <- os_ReadDir ;;
  loadTodayEvents_loop env now files [].

Fixpoint removeLocalEvents_loop (env : Env) (events : list CalendarEvent)
    (files : list string) : M unit :=
  match files with
  | [] => ret tt
  | file :: rest =>
      if HasSuffix file ".json" then
        let id := TrimSuffix file ".json" in
        let found := existsb (fun event => String.eqb (ID event) id) events in
        if negb found
        then exec os_Remove env file ;; removeLocalEvents_loop env events rest
        else removeLocalEvents_loop env events rest
      else removeLocalEvents_loop env events rest
  end.

Definition removeLocalEventsNotInCalendar (env : Env) (events : list CalendarEvent)
  : M unit :=
  do files <- os_ReadDir ;;
  removeLocalEvents_loop env events files.

Fixpoint saveEvents_loop (env : Env) (events : list CalendarEvent) : M unit :=
  match events with
  | [] => ret tt
  | event :: rest => exec saveEventLocally env event ;; saveEvents_loop env rest
  end.

Definition syncLocalEvents (env : Env) (events : list CalendarEvent) : M unit :=
  exec saveEvents_loop env events ;;
  removeLocalEventsNotInCalendar env events.

Definition updateEvent_ops (e : LocalEvent) : list FsOp :=
  os_WriteFile_ops (ID (Event e) +:+ ".json") (Json e).

Definition updateEvent (env : Env) (e : LocalEvent) : M unit :=
  do eJson <- json_MarshalIndent env e ;;
  os_WriteFile env (ID (Event e) +:+ ".json") eJson.

(** The setters have a pointer receiver: each gives the receiver after
    the assignment and the store update whose error it returns. *)
Definition setStartAnnounced (env : Env) (e : LocalEvent) : LocalEvent * M unit :=
  let e := mkLocalEvent (Event e) true (CheckStartAnnounced e) (EndAnnounced e)
             (LastTimeReminded e) in
  (e, updateEvent env e).

Definition setStartChecked (env : Env) (e : LocalEvent) : LocalEvent * M unit :=
  let e := mkLocalEvent (Event e) (StartAnnounced e) true (EndAnnounced e)
             (LastTimeReminded e) in
  (e, updateEvent env e).

Definition setEndAnnounced (env : Env) (e : LocalEvent) : LocalEvent * M unit :=
  let e := mkLocalEvent (Event e) (StartAnnounced e) (CheckStartAnnounced e) true
             (LastTimeReminded e) in
  (e, updateEvent env e).

Definition setReminded (env : Env) (now : Time) (e : LocalEvent) : LocalEvent * M unit :=
  let e := mkLocalEvent (Event e) (StartAnnounced e) (CheckStartAnnounced e)
             (EndAnnounced e) now in
  (e, updateEvent env e).

(** ** The reminder tick ([reminder.go]) *)

(** The body of the loop of [remindCurrentEvents] for one event.  The
    first three branches end in [continue]; the errors of the setters are
    dropped, as in the source. *)
Definition remindEvent (env : Env) (cfg : Config) (now : Time) (e : LocalEvent)
  : M unit :=
  if shouldAnnounceEventStart now e then
    exec logDebug cfg "Announcing event start" ;;
    let '(e, update) := setStartAnnounced env e in
    exec attempt update ;;
    let '(e, update) := setReminded env now e in
    exec attempt update ;;
    announceTask AnnounceStart e
  else if shouldCheckEventStarted now e then
    exec logDebug cfg "Checking event started" ;;
    let '(e, update) := setStartChecked env e in
    exec attempt update ;;
    announceTask CheckStarted e
  else if shouldRemindEvent cfg now e then
    exec logDebug cfg "Reminding event" ;;
    let '(e, update) := setReminded env now e in
    exec attempt update ;;
    announceTask Remind e
  else if shouldAnnounceEventEnd now e then
    exec logDebug cfg "Announcing event end" ;;
    let '(e, update) := setEndAnnounced env e in
    exec attempt update ;;
    announceTask AnnounceEnd e
  else ret tt.

Fixpoint remindEvents_loop (env : Env) (cfg : Config) (now : Time)
    (events : list LocalEvent) : M unit :=
  match events with
  | [] => ret tt
  | e :: rest => exec remindEvent env cfg now e ;; remindEvents_loop env cfg now rest
  end.

Definition remindCurrentEvents (env : Env) (cfg : Config) (now : Time) : M unit :=
  do r <- attempt (loadTodayEvents env now) ;;
  do events <- match r with
               | Ok events => ret events
               | Err err => exec logLine (LogLoadEventsFailed err) ;; ret []
               end ;;
  remindEvents_loop env cfg now events.

(** ** [writeFileAtomically] ([utils.go]) *)

(** [fmt.Sprintf("%s.tmp.%d", path, rand.Int63())]; [rnd] is the number
    drawn. *)
Definition tempPathOf (path : string) (rnd : N) : string :=
  path +:+ ".tmp." +:+ pretty rnd.

Definition writeFileAtomically_ops (path : string) (data : FileContent) (rnd : N)
  : list FsOp :=
  os_WriteFile_ops (tempPathOf path rnd) data ++ [OpRename (tempPathOf path rnd) path].

Definition writeFileAtomically (env : Env) (path : string) (data : FileContent)
    (rnd : N) : M unit :=
  let tempPath := tempPathOf path rnd in
  exec os_WriteFile env tempPath data ;;
  do r <- attempt (os_Rename env tempPath path) ;;
  match r with
  | Err err => exec attempt (os_Remove env tempPath) ;; fail err
  | Ok _ => ret tt
  end.

(** ** Day bounds ([utils.go]) *)

Definition startOfDay (t : Time) : Time := Truncate t (24 * Hour).

(** ** The rotating log writer ([log.go]) *)

(** The directory of the log is a finite map from paths to contents.  An
    open [*os.File] of the writer denotes the file at [filePath]: nothing
    but the writer renames or removes the log while it holds it open.
    The mutex of the writer is not modelled. *)
Module Logging.

Inductive LogError :=
| EStat
| ECloseFile
| ERemoveOld
| ERotate
| ECreate
| EOpen
| EClosed
| EInvalid
| EShortWrite
| EInit (cause : LogError).

(** An [*os.File] opened with [O_CREATE|O_WRONLY|O_APPEND].  [Close]
    closes it also when it reports an error; [Stat], [Write] and [Close]
    on a closed file fail. *)
Record File := mkFile { closed : bool }.

Record RotatingWriter := mkRotatingWriter {
  filePath : string;
  file : option File;
  maxSize : Z
}.

(** What the file system refuses during one call of the writer:
    [write_stops = Some k] makes [file.Write] fail after [k] bytes. *)
Record Faults := mkFaults {
  stat_fails : bool;
  close_fails : bool;
  stat_old_fails : bool;
  remove_fails : bool;
  rename_fails : bool;
  open_fails : bool;
  write_stops : option nat
}.

(** [info.Size()] *)
Definition fileSize (fs : gmap string string) (path : string) : Z :=
  Z.of_nat (String.length (default "" (fs !! path))).

Definition os_OpenFile (ft : Faults) (path : string) (fs : gmap string string)
  : option File * gmap string string :=
  if open_fails ft then (None, fs)
  else (Some (mkFile false),
        match fs !! path with
        | Some _ => fs
        | None => <[path := ""]> fs
        end).

(** [f.Write(p)] on the file of the writer, which may be [nil]. *)
Definition File_Write (ft : Faults) (f : option File) (path p : string)
    (fs : gmap string string) : (Z * option LogError) * gmap string string :=
  match f with
  | None => ((0, Some EInvalid), fs)
  | Some f =>
      if closed f then ((0, Some EClosed), fs)
      else
        let old := default "" (fs !! path) in
        match write_stops ft with
        | Some k =>
            let q := String.substring 0 k p in
            ((Z.of_nat (String.length q), Some EShortWrite), <[path := old +:+ q]> fs)
        | None => ((Z.of_nat (String.length p), None), <[path := old +:+ p]> fs)
        end
  end.

Definition rotateIfNeeded (ft : Faults) (rw : RotatingWriter) (fs : gmap string string)
  : option LogError * RotatingWriter * gmap string string :=
  match file rw with
  | None => (None, rw, fs)
  | Some f =>
      if closed f || stat_fails ft then (Some EStat, rw, fs)
      else if fileSize fs (filePath rw) <? maxSize rw then (None, rw, fs)
      else
        let rw := mkRotatingWriter (filePath rw) (Some (mkFile true)) (maxSize rw) in
        if close_fails ft then (Some ECloseFile, rw, fs)
        else
          let oldLogPath := filePath rw +:+ ".old" in
          let oldExists :=
            negb (stat_old_fails ft)
            && match fs !! oldLogPath with Some _ => true | None => false end in
          if oldExists && remove_fails ft then (Some ERemoveOld, rw, fs)
          else
            let fs := if oldExists then delete oldLogPath fs else fs in
            match (if rename_fails ft then None else fs !! filePath rw) with
            | None => (Some ERotate, rw, fs)
            | Some c =>
                let fs := <[oldLogPath := c]> (delete (filePath rw) fs) in
                match os_OpenFile ft (filePath rw) fs with
                | (None, fs) => (Some ECreate, rw, fs)
                | (Some f, fs) =>
                    (None, mkRotatingWriter (filePath rw) (Some f) (maxSize rw), fs)
                end
            end
  end.

Definition NewRotatingWriter (ft : Faults) (filePath : string) (maxSize : Z)
    (fs : gmap string string) : (LogError + RotatingWriter) * gmap string string :=
  let rw := mkRotatingWriter filePath None maxSize in
  let '(err, rw, fs) := rotateIfNeeded ft rw fs in
  match err with
  | Some err => (inl (EInit err), fs)
  | None =>
      match os_OpenFile ft filePath fs with
      | (None, fs) => (inl EOpen, fs)
      | (Some f, fs) => (inr (mkRotatingWriter filePath (Some f) maxSize), fs)
      end
  end.

Definition Write (ft : Faults) (p : string) (rw : RotatingWriter)
    (fs : gmap string string)
  : (Z * option LogError) * RotatingWriter * gmap string string :=
  let '(err, rw, fs) := rotateIfNeeded ft rw fs in
  match err with
  | Some err =>
      match file rw with
      | Some _ =>
          let '(r, fs) := File_Write ft (file rw) (filePath rw) p fs in (r, rw, fs)
      | None => ((0, Some err), rw, fs)
      end
  | None =>
      let '(r, fs) := File_Write ft (file rw) (filePath rw) p fs in (r, rw, fs)
  end.

Definition Close (ft : Faults) (rw : RotatingWriter)
  : option LogError * RotatingWriter :=
  match file rw with
  | Some f =>
      if closed f then (Some EClosed, rw)
      else (if close_fails ft then Some ECloseFile else None,
            mkRotatingWriter (filePath rw) (Some (mkFile true)) (maxSize rw))
  | None => (None, rw)
  end.

(** A file system that refuses nothing. *)
Definition noFaults : Faults := mkFaults false false false false false false None.

End Logging.

(** ** Sessions of the web interface ([webserver.go]) *)

(** The mutex of the session manager is not modelled; every call of
    [time.Now()] made by one call of a method reads the instant [now]. *)
Module Web.

Definition sessionTimeout : Duration := 30 * Minute.

Record Session := mkSession {
  id : string;
  csrfToken : string;
  created : Time;
  lastAccess : Time
}.

(** [sm.sessions] *)
Abbreviation SessionManager := (gmap string Session).

Inductive WebError :=
| ERandRead
| ESessionNotFound.

(** [time.Since(t)] *)
Definition Since (now t : Time) : Duration := Sub now t.

(** [base64.URLEncoding.EncodeToString] on bytes given as numbers below
    256: the alphabet of RFC 4648, section 5, with padding. *)
Definition encodeURL : string :=
  "ABCDEFGHIJKLMNOPQRSTUVWXYZabcdefghijklmnopqrstuvwxyz0123456789-_".

Definition base64Char (n : N) : Ascii.ascii :=
  default "="%char (String.get (N.to_nat n) encodeURL).

Fixpoint EncodeToString (src : list N) : string :=
  match src with
  | [] => ""
  | [a] =>
      let v := N.shiftl a 16 in
      String (base64Char (N.land (N.shiftr v 18) 63))
        (String (base64Char (N.land (N.shiftr v 12) 63)) "==")
  | [a; b] =>
      let v := N.lor (N.shiftl a 16) (N.shiftl b 8) in
      String (base64Char (N.land (N.shiftr v 18) 63))
        (String (base64Char (N.land (N.shiftr v 12) 63))
           (String (base64Char (N.land (N.shiftr v 6) 63)) "="))
  | a :: b :: c :: rest =>
      let v := N.lor (N.lor (N.shiftl a 16) (N.shiftl b 8)) c in
      String (base64Char (N.land (N.shiftr v 18) 63))
        (String (base64Char (N.land (N.shiftr v 12) 63))
           (String (base64Char (N.land (N.shiftr v 6) 63))
              (String (base64Char (N.land v 63)) (EncodeToString rest))))
  end.

(** [sessionBytes] and [csrfBytes] are what the two calls of [rand.Read]
    filled in, [None] for a call that failed. *)
Definition createSession (now : Time) (sessionBytes csrfBytes : option (list N))
    (sm : SessionManager) : (WebError + string) * SessionManager :=
  match sessionBytes with
  | None => (inl ERandRead, sm)
  | Some sessionBytes =>
      match csrfBytes with
      | None => (inl ERandRead, sm)
      | Some csrfBytes =>
          let sessionID := EncodeToString sessionBytes in
          let csrfToken := EncodeToString csrfBytes in
          (inr sessionID,
           <[sessionID := mkSession sessionID csrfToken now now]> sm)
      end
  end.

Definition isValidSession (now : Time) (sessionID : string) (sm : SessionManager)
  : bool * SessionManager :=
  match sm !! sessionID with
  | None => (false, sm)
  | Some session =>
      if sessionTimeout <? Since now (lastAccess session)
      then (false, delete sessionID sm)
      else (true,
            <[sessionID := mkSession (id session) (csrfToken session)
                             (created session) now]> sm)
  end.

Definition deleteSession (sessionID : string) (sm : SessionManager) : SessionManager :=
  delete sessionID sm.

(** [subtle.ConstantTimeCompare]: 1 when the two byte strings are equal,
    0 otherwise. *)
Definition ConstantTimeCompare (x y : string) : Z :=
  if String.eqb x y then 1 else 0.

Definition validateCSRFToken (sessionID token : string) (sm : SessionManager) : bool :=
  match sm !! sessionID with
  | None => false
  | Some session => ConstantTimeCompare (csrfToken session) token =? 1
  end.

Definition getCSRFToken (sessionID : string) (sm : SessionManager)
  : WebError + string :=
  match sm !! sessionID with
  | None => inl ESessionNotFound
  | Some session => inr (csrfToken session)
  end.

(** One turn of the loop of [cleanupExpiredSessions], run at each tick
    of its five-minute ticker. *)
Definition cleanupExpiredSessions (now : Time) (sm : SessionManager) : SessionManager :=
  filter (fun kv => negb (sessionTimeout <? Since now (lastAccess kv.2))) sm.

End Web.

(** ** The reminder loop of [main] ([main.go]) *)

(** The first turns of the loop that ends [main], which calls
    [remindCurrentEvents] and sleeps; [times] are the instants that the
    turns read from the clock, one after the other. *)
Fixpoint main_loop (env : Env) (cfg : Config) (times : list Time) : M unit :=
  match times with
  | [] => ret tt
  | now :: rest => exec remindCurrentEvents env cfg now ;; main_loop env cfg rest
  end.


(** ** Notions used in the statements *)

(** The record [saveEventLocally] writes for [event] over directory
    [dir]: the flags of a readable record of the same name, or none. *)
Definition recordToSave (event : CalendarEvent) (dir : gmap string FileContent)
  : LocalEvent :=
  match dir !! (ID event +:+ ".json") with
  | Some (Json old) =>
      mkLocalEvent event (StartAnnounced old) (CheckStartAnnounced old)
        (EndAnnounced old) (LastTimeReminded old)
  | _ => mkLocalEvent event false false false zeroTime
  end.

(** The files the pruning step removes: named [<id>.json] for an
    identifier that no remote event carries. *)
Definition stale (events : list CalendarEvent) (name : string) : bool :=
  HasSuffix name ".json"
  && negb (existsb (fun event => String.eqb (ID event) (TrimSuffix name ".json")) events).

(** A record belongs to today's working set. *)
Definition inWorkingSet (now : Time) (e : LocalEvent) : bool :=
  scheduledForToday now e && negb (After now (EndTime (Event e))).

(** The record as [loadTodayEvents] hands it out: moved to its time zone
    when it names one, to the local zone when that zone does not load. *)
Definition zoneFixed (env : Env) (e : LocalEvent) : LocalEvent :=
  if String.eqb (TimeZone (Event e)) "" then e
  else inZone (default Local (LoadLocation env (TimeZone (Event e)))) e.

(** A write of file [name] by the system calls [ops] is atomic when a
    crash at any point leaves the file as it was or as the completed
    write makes it. *)
Definition atomic_write (name : string) (ops : list FsOp)
    (dir : gmap string FileContent) : Prop :=
  forall s, s ∈ crash_states ops dir ->
            s !! name = dir !! name \/ s !! name = run_ops ops dir !! name.

(** The system calls of the write that ends [saveEventLocally]. *)
Definition saveEventLocally_ops (event : CalendarEvent)
    (dir : gmap string FileContent) : list FsOp :=
  os_WriteFile_ops (ID event +:+ ".json") (Json (recordToSave event dir)).

(** Two records carry the same four lifecycle fields. *)
Definition sameLifecycle (r r' : LocalEvent) : Prop :=
  StartAnnounced r' = StartAnnounced r
  /\ CheckStartAnnounced r' = CheckStartAnnounced r
  /\ EndAnnounced r' = EndAnnounced r
  /\ LastTimeReminded r' = LastTimeReminded r.

(** No flag that is set in [r] is clear in [r']. *)
Definition flagsKept (r r' : LocalEvent) : Prop :=
  (StartAnnounced r = true -> StartAnnounced r' = true)
  /\ (CheckStartAnnounced r = true -> CheckStartAnnounced r' = true)
  /\ (EndAnnounced r = true -> EndAnnounced r' = true).

(** Every readable record lies in the file named after its identifier. *)
Definition consistent (dir : gmap string FileContent) : Prop :=
  forall name e, dir !! name = Some (Json e) -> name = ID (Event e) +:+ ".json".

(** The record [remindEvent] writes back for [e] when a guard holds. *)
Definition recordAfter (cfg : Config) (now : Time) (e : LocalEvent) : LocalEvent :=
  if shouldAnnounceEventStart now e
  then mkLocalEvent (Event e) true (CheckStartAnnounced e) (EndAnnounced e) now
  else if shouldCheckEventStarted now e
  then mkLocalEvent (Event e) (StartAnnounced e) true (EndAnnounced e)
         (LastTimeReminded e)
  else if shouldRemindEvent cfg now e
  then mkLocalEvent (Event e) (StartAnnounced e) (CheckStartAnnounced e)
         (EndAnnounced e) now
  else if shouldAnnounceEventEnd now e
  then mkLocalEvent (Event e) (StartAnnounced e) (CheckStartAnnounced e) true
         (LastTimeReminded e)
  else e.

(** Some guard holds for [e]. *)
Definition due (cfg : Config) (now : Time) (e : LocalEvent) : bool :=
  shouldAnnounceEventStart now e || shouldCheckEventStarted now e
  || shouldRemindEvent cfg now e || shouldAnnounceEventEnd now e.

(** What a tick may have done to the file [name] of store [dir0]:
    nothing, or replaced its record [r0] by a record of the same event,
    zone-fixed, in which no flag of [r0] is cleared. *)
Definition tickedFrom (env : Env) (dir0 dir : gmap string FileContent) : Prop :=
  forall name,
    dir !! name = dir0 !! name
    \/ exists r0 r,
         dir0 !! name = Some (Json r0)
         /\ dir !! name = Some (Json r)
         /\ Event r = Event (zoneFixed env r0)
         /\ flagsKept r0 r.

(** The announcement a pass of the loop body over [e] makes, if any. *)
Definition announcement (cfg : Config) (now : Time) (e : LocalEvent)
  : option (Decision * string) :=
  if shouldAnnounceEventStart now e then Some (AnnounceStart, ID (Event e))
  else if shouldCheckEventStarted now e then Some (CheckStarted, ID (Event e))
  else if shouldRemindEvent cfg now e then Some (Remind, ID (Event e))
  else if shouldAnnounceEventEnd now e then Some (AnnounceEnd, ID (Event e))
  else None.

(** What [loadTodayEvents] takes from the file [name] of a store whose
    records all parse. *)
Definition picked (env : Env) (now : Time) (dir : gmap string FileContent)
    (name : string) : option LocalEvent :=
  match dir !! name with
  | Some (Json e) => if inWorkingSet now e then Some (zoneFixed env e) else None
  | _ => None
  end.

(** The answers of [isValidSession] to requests made with the session
    [sessionID] at the instants [times], in that order. *)
Fixpoint visits (sessionID : string) (times : list Time) (sm : Web.SessionManager)
  : list bool * Web.SessionManager :=
  match times with
  | [] => ([], sm)
  | now :: rest =>
      let '(ok, sm) := Web.isValidSession now sessionID sm in
      let '(oks, sm) := visits sessionID rest sm in
      (ok :: oks, sm)
  end.

(** No instant of [times] is more than [sessionTimeout] after the one
    before it, the first no more than that after [last]. *)
Fixpoint keptAlive (last : Time) (times : list Time) : Prop :=
  match times with
  | [] => True
  | now :: rest =>
      instant now - instant last <= Web.sessionTimeout /\ keptAlive now rest
  end.

(** The store takes every update. *)
Definition accepting (env : Env) : Prop :=
  (forall r, marshal_fails env r = false)
  /\ (forall name, write_fails env name = false).

(** Each instant of [times] is later than the one before it. *)
Fixpoint ascending (times : list Time) : Prop :=
  match times with
  | a :: rest =>
      match rest with
      | b :: _ => instant a < instant b
      | [] => True
      end /\ ascending rest
  | [] => True
  end.

(** The same, with [lo] a lower bound of the first instant. *)
Fixpoint increasing (lo : Z) (times : list Time) : Prop :=
  match times with
  | [] => True
  | now :: rest => lo <= instant now /\ increasing (instant now + 1) rest
  end.

(** Equality of decisions. *)
Definition Decision_eqb (a b : Decision) : bool :=
  match a, b with
  | AnnounceStart, AnnounceStart => true
  | CheckStarted, CheckStarted => true
  | Remind, Remind => true
  | AnnounceEnd, AnnounceEnd => true
  | _, _ => false
  end.

(** How often a list of announcements holds the announcement [d] of the
    event [id]. *)
Definition announcedTimes (d : Decision) (id : string) (ds : list (Decision * string))
  : nat :=
  length (List.filter (fun a => Decision_eqb a.1 d && String.eqb a.2 id) ds).

(** The lifecycle flag that records the announcement [d]; reminders
    have none. *)
Definition flagOf (d : Decision) (r : LocalEvent) : bool :=
  match d with
  | AnnounceStart => StartAnnounced r
  | CheckStarted => CheckStartAnnounced r
  | AnnounceEnd => EndAnnounced r
  | Remind => false
  end.

(** ** Sample data *)

Module Sample.

(** 2025-01-01 is day 739251 after the zero time. *)
Definition clock (h m : Z) : Time :=
  mkTime (739251 * (24 * Hour) + h * Hour + m * Minute) Local.

Definition env : Env :=
  mkEnv (fun _ => Some UTC) false (fun _ => false) (fun _ => false)
    (fun _ _ => false) (fun _ => false).

Definition cfg : Config := mkConfig false "events" 3.

(** A task from 14:00 to 14:30. *)
Definition task : CalendarEvent :=
  mkCalendarEvent "A" (clock 14 0) (clock 14 30) "" "write the report".

Definition fresh (event : CalendarEvent) : LocalEvent :=
  mkLocalEvent event false false false zeroTime.

(** The same task once its start was announced at 14:00. *)
Definition started : LocalEvent :=
  mkLocalEvent task true false false (clock 14 0).

(** A task from 10:00 to 11:00, announced and last reminded at 10:00. *)
Definition hour_task : LocalEvent :=
  mkLocalEvent
    (mkCalendarEvent "H" (clock 10 0) (clock 11 0) "" "review")
    true true false (clock 10 0).

(** A task starting at 14:00 whose end time is absent. *)
Definition open_ended : CalendarEvent :=
  mkCalendarEvent "O" (clock 14 0) zeroTime "" "call back".

Definition taskB : CalendarEvent :=
  mkCalendarEvent "B" (clock 9 0) (clock 9 30) "" "stand-up".

Definition taskC : CalendarEvent :=
  mkCalendarEvent "C" (clock 16 0) (clock 17 0) "Europe/Paris" "gym".

Definition finishedB : LocalEvent :=
  mkLocalEvent taskB true true true (clock 9 20).

(** A store holding the record of the started task only. *)
Definition dirA : gmap string FileContent :=
  {[ "A.json" := Json started ]}.

Definition worldA : World := mkWorld (Some dirA) [] [].

(** A store holding records for A, B and C. *)
Definition dirABC : gmap string FileContent :=
  {[ "A.json" := Json started;
     "B.json" := Json finishedB;
     "C.json" := Json (fresh taskC) ]}.

Definition worldABC : World := mkWorld (Some dirABC) [] [].

(** A store where the record of B is unreadable. *)
Definition dirCorrupt : gmap string FileContent :=
  {[ "A.json" := Json started; "B.json" := Corrupt "{" ]}.

Definition worldCorrupt : World := mkWorld (Some dirCorrupt) [] [].

(** A store holding the open-ended task only. *)
Definition worldOpen : World :=
  mkWorld (Some {[ "O.json" := Json (fresh open_ended) ]}) [] [].

End Sample.

(** Further sample data. *)
Module Fixture.

(** A store holding the task of 14:00 to 14:30, nothing announced yet. *)
Definition worldFresh : World :=
  mkWorld (Some {[ "A.json" := Json (Sample.fresh Sample.task) ]}) [] [].

(** A store holding the task of 10:00 to 11:00. *)
Definition worldH : World :=
  mkWorld (Some {[ "H.json" := Json Sample.hour_task ]}) [] [].

(** The task of 14:00 to 14:30, started, checked and reminded at 14:25. *)
Definition ending : LocalEvent :=
  mkLocalEvent Sample.task true true false (Sample.clock 14 25).

Definition worldEnding : World :=
  mkWorld (Some {[ "A.json" := Json ending ]}) [] [].

(** 14:29:30 *)
Definition halfToEnd : Time :=
  mkTime (instant (Sample.clock 14 29) + 30 * Second) Local.

(** A store holding the fresh task and a file that is no record. *)
Definition dirStray : gmap string FileContent :=
  {[ "A.json" := Json (Sample.fresh Sample.task);
     "notes.txt" := Corrupt "call the plumber" ]}.

Definition worldStray : World := mkWorld (Some dirStray) [] [].

(** A file system that refuses every rename. *)
Definition envNoRename : Env :=
  mkEnv (fun _ => Some UTC) false (fun _ => false) (fun _ => false)
    (fun _ _ => true) (fun _ => false).

(** A log of ten bytes under a writer that rotates at eight. *)
Definition logDir : gmap string string :=
  {[ "app.log" := "0123456789"; "app.log.old" := "older" ]}.

Definition logWriter : Logging.RotatingWriter :=
  Logging.mkRotatingWriter "app.log" (Some (Logging.mkFile false)) 8.

(** A file system that refuses the rename of the log. *)
Definition noRename : Logging.Faults :=
  Logging.mkFaults false false false false true false None.

(** A session opened at 9:00 and last used at 9:10. *)
Definition session : Web.Session :=
  Web.mkSession "c2lk" "dG9r" (Sample.clock 9 0) (Sample.clock 9 10).

Definition sessions : Web.SessionManager := {[ "c2lk" := session ]}.

End Fixture.

(** ** Arithmetic of the guards *)

Ltac cmp_cases :=
  repeat match goal with
         | |- context [Z.ltb ?a ?b] => destruct (Z.ltb_spec a b)
         | |- context [Z.leb ?a ?b] => destruct (Z.leb_spec a b)
         | |- context [Z.eqb ?a ?b] => destruct (Z.eqb_spec a b)
         end.

Lemma scheduledForNow_spec now e :
  scheduledForNow now e = true <->
  instant (StartTime (Event e)) <> 0 /\
  instant (StartTime (Event e)) < instant now < instant (EndTime (Event e)).
Proof.
  unfold scheduledForNow, IsZero, After, Before.
  cmp_cases; simpl; split; intros; try discriminate; try lia; auto.
Qed.

Lemma scheduledNearEnd_spec now e :
  scheduledNearEnd now e = true <->
  instant (EndTime (Event e)) <> 0 /\
  instant (EndTime (Event e)) - Minute < instant now
    < instant (EndTime (Event e)) + Minute.
Proof.
  unfold scheduledNearEnd, IsZero, After, Before, Add; simpl.
  cmp_cases; simpl; split; intros; try discriminate; try lia; auto.
Qed.

Lemma scheduledForToday_spec now e :
  scheduledForToday now e = true <->
  instant (StartTime (Event e)) / (24 * Hour) = instant now / (24 * Hour).
Proof.
  unfold scheduledForToday, Equal, Truncate, Add.
  change (24 * Hour <=? 0) with false; simpl.
  set (d := 24 * Hour).
  assert (Hd : 0 < d) by (subst d; reflexivity).
  rewrite Z.eqb_eq, !Z.mod_eq by lia.
  split; intros H.
  - apply (Z.mul_reg_l _ _ d); lia.
  - rewrite H. lia.
Qed.

Lemma Sub_exact t u :
  minDuration <= instant t - instant u <= maxDuration ->
  Sub t u = instant t - instant u.
Proof. unfold Sub. intros H. cmp_cases; lia. Qed.

Lemma loadConfig_repeats raw cfg :
  loadConfig (Ok raw) = Ok cfg ->
  NotificationRepeats cfg =
    (if NotificationRepeats raw <=? 0 then DefaultNotificationRepeats
     else NotificationRepeats raw)
  /\ 0 < NotificationRepeats cfg.
Proof.
  unfold loadConfig. destruct (Z.leb_spec (NotificationRepeats raw) 0);
    intros [= <-]; simpl; unfold DefaultNotificationRepeats; lia.
Qed.

(** ** The four guards *)

(** C3 (as amended): the start announcement is due exactly when
    [StartAnnounced] is false, the event is scheduled for today, its start
    time is not the zero time, and [now] lies strictly between start and
    end: the interval is open at both ends. *)
Theorem shouldAnnounceEventStart_iff now e :
  shouldAnnounceEventStart now e = true <->
  StartAnnounced e = false /\
  scheduledForToday now e = true /\
  instant (StartTime (Event e)) <> 0 /\
  instant (StartTime (Event e)) < instant now < instant (EndTime (Event e)).
Proof.
  rewrite <- scheduledForNow_spec.
  unfold shouldAnnounceEventStart.
  destruct (StartAnnounced e), (scheduledForToday now e), (scheduledForNow now e);
    simpl; intuition congruence.
Qed.

(** C3 as the design document states it fails when [now] is the start
    instant itself: the task of 14:00 to 14:30 is unannounced, scheduled
    for today and 14:00 lies in [[start, end)], yet the guard is false. *)
Lemma announce_start_misses_start_instant :
  (StartAnnounced (Sample.fresh Sample.task) = false /\
   scheduledForToday (Sample.clock 14 0) (Sample.fresh Sample.task) = true /\
   instant (StartTime Sample.task) <= instant (Sample.clock 14 0)
     < instant (EndTime Sample.task))
  /\ shouldAnnounceEventStart (Sample.clock 14 0) (Sample.fresh Sample.task) = false.
Proof. vm_compute. intuition congruence. Qed.

(** C6 (as amended): the start-confirmation check is due exactly when the
    event is scheduled for today, [StartAnnounced] is true,
    [CheckStartAnnounced] is false and [now] is strictly later than one
    minute after the start. *)
Theorem shouldCheckEventStarted_iff now e :
  shouldCheckEventStarted now e = true <->
  scheduledForToday now e = true /\
  StartAnnounced e = true /\
  CheckStartAnnounced e = false /\
  instant (StartTime (Event e)) + Minute < instant now.
Proof.
  unfold shouldCheckEventStarted, After, Add; simpl.
  destruct (scheduledForToday now e), (StartAnnounced e), (CheckStartAnnounced e);
    simpl; cmp_cases; intuition (try congruence; try lia).
Qed.

(** C6 as the design document states it fails one minute after the start
    exactly: at 14:01 the announced task of 14:00 is not yet checked. *)
Lemma check_started_misses_minute_instant :
  (scheduledForToday (Sample.clock 14 1) Sample.started = true /\
   StartAnnounced Sample.started = true /\
   CheckStartAnnounced Sample.started = false /\
   instant (StartTime Sample.task) + Minute <= instant (Sample.clock 14 1))
  /\ shouldCheckEventStarted (Sample.clock 14 1) Sample.started = false.
Proof. vm_compute. intuition congruence. Qed.

(** C5 (as amended): for an event with a defined end time, the end
    announcement is due exactly when [EndAnnounced] is false, the event is
    scheduled for today and [now] lies strictly within one minute of the
    end: the window is open at both ends. *)
Theorem shouldAnnounceEventEnd_iff now e :
  IsZero (EndTime (Event e)) = false ->
  (shouldAnnounceEventEnd now e = true <->
   EndAnnounced e = false /\
   scheduledForToday now e = true /\
   instant (EndTime (Event e)) - Minute < instant now
     < instant (EndTime (Event e)) + Minute).
Proof.
  intros Hend. unfold IsZero in Hend. apply Z.eqb_neq in Hend.
  unfold shouldAnnounceEventEnd.
  pose proof (scheduledNearEnd_spec now e) as Hnear.
  destruct (EndAnnounced e), (scheduledForToday now e), (scheduledNearEnd now e);
    simpl; intuition (try congruence; try lia).
Qed.

Lemma shouldAnnounceEventEnd_iff_witness :
  IsZero (EndTime (Event Sample.started)) = false /\
  (shouldAnnounceEventEnd (Sample.clock 14 30) Sample.started = true <->
   EndAnnounced Sample.started = false /\
   scheduledForToday (Sample.clock 14 30) Sample.started = true /\
   instant (EndTime (Event Sample.started)) - Minute < instant (Sample.clock 14 30)
     < instant (EndTime (Event Sample.started)) + Minute).
Proof.
  split; [reflexivity |].
  apply (shouldAnnounceEventEnd_iff (Sample.clock 14 30) Sample.started).
  reflexivity.
Defined.

(** C5 as the design document states it fails at both ends of the window:
    at 14:29 and at 14:31 the end of the task of 14:00 to 14:30 is not
    announced. *)
Lemma announce_end_misses_window_ends :
  IsZero (EndTime Sample.task) = false /\
  EndAnnounced Sample.started = false /\
  scheduledForToday (Sample.clock 14 29) Sample.started = true /\
  scheduledForToday (Sample.clock 14 31) Sample.started = true /\
  instant (Sample.clock 14 29) = instant (EndTime Sample.task) - Minute /\
  instant (Sample.clock 14 31) = instant (EndTime Sample.task) + Minute /\
  shouldAnnounceEventEnd (Sample.clock 14 29) Sample.started = false /\
  shouldAnnounceEventEnd (Sample.clock 14 31) Sample.started = false.
Proof. vm_compute. intuition congruence. Qed.

(** C4 (as amended): under a configuration installed by [loadConfig], for
    an event with a defined end time that lasts no longer than a
    [Duration] can hold, the reminder is due exactly when [EndAnnounced]
    is false, [start <= now <= end], and [now] is strictly later than
    [LastTimeReminded + (end - start) / repeats], where [repeats] is the
    configured count, or 3 when that is not positive.  A zero
    [LastTimeReminded] has no case of its own: it meets the inequality
    at every instant of an event that starts later after the zero time
    than it lasts. *)
Theorem shouldRemindEvent_iff raw cfg now e :
  loadConfig (Ok raw) = Ok cfg ->
  IsZero (EndTime (Event e)) = false ->
  instant (EndTime (Event e)) - instant (StartTime (Event e)) <= maxDuration ->
  (shouldRemindEvent cfg now e = true <->
   EndAnnounced e = false /\
   instant (StartTime (Event e)) <= instant now <= instant (EndTime (Event e)) /\
   instant (LastTimeReminded e)
     + Z.quot (instant (EndTime (Event e)) - instant (StartTime (Event e)))
         (if NotificationRepeats raw <=? 0 then DefaultNotificationRepeats
          else NotificationRepeats raw)
     < instant now)
  /\ (IsZero (LastTimeReminded e) = true ->
      instant (EndTime (Event e)) - instant (StartTime (Event e))
        < instant (StartTime (Event e)) ->
      (shouldRemindEvent cfg now e = true <->
       EndAnnounced e = false /\
       instant (StartTime (Event e)) <= instant now <= instant (EndTime (Event e)))).
Proof.
  intros Hcfg Hend Hdur.
  destruct (loadConfig_repeats _ _ Hcfg) as [Hrep Hpos].
  rewrite <- Hrep. clear Hrep Hcfg raw.
  unfold shouldRemindEvent, reminderInterval. rewrite Hend.
  unfold IsZero, Before, After, Add; simpl.
  set (s := instant (StartTime (Event e))) in *.
  set (t := instant (EndTime (Event e))) in *.
  set (n := NotificationRepeats cfg) in *.
  assert (Hquot : s <= t -> 0 <= Z.quot (t - s) n <= t - s).
  { intros Hst. rewrite Z.quot_div_nonneg by lia. split.
    - apply Z.div_pos; lia.
    - apply Z.div_le_upper_bound; nia. }
  destruct (EndAnnounced e); simpl.
  { split; [| intros _ _]; intuition congruence. }
  destruct (Z.ltb_spec (instant now) s); simpl.
  { split; [| intros _ _]; intuition (try congruence; try lia). }
  destruct (Z.ltb_spec t (instant now)); simpl.
  { split; [| intros _ _]; intuition (try congruence; try lia). }
  assert (Hst : s <= t) by lia.
  specialize (Hquot Hst).
  rewrite Sub_exact by (fold s t; unfold minDuration; lia).
  fold s t.
  split.
  - cmp_cases; intuition (try congruence; try lia).
  - intros Hz Hlate. apply Z.eqb_eq in Hz. rewrite Hz.
    cmp_cases; intuition (try congruence; try lia).
Qed.

Lemma shouldRemindEvent_iff_witness :
  loadConfig (Ok (mkConfig false "events" 0)) = Ok Sample.cfg /\
  IsZero (EndTime (Event Sample.hour_task)) = false /\
  instant (EndTime (Event Sample.hour_task))
    - instant (StartTime (Event Sample.hour_task)) <= maxDuration /\
  (shouldRemindEvent Sample.cfg (Sample.clock 10 21) Sample.hour_task = true <->
   EndAnnounced Sample.hour_task = false /\
   instant (Sample.clock 10 0) <= instant (Sample.clock 10 21)
     <= instant (Sample.clock 11 0) /\
   instant (Sample.clock 10 0)
     + Z.quot (instant (Sample.clock 11 0) - instant (Sample.clock 10 0)) 3
     < instant (Sample.clock 10 21)).
Proof.
  assert (H1 : loadConfig (Ok (mkConfig false "events" 0)) = Ok Sample.cfg)
    by reflexivity.
  assert (H2 : IsZero (EndTime (Event Sample.hour_task)) = false) by reflexivity.
  assert (H3 : instant (EndTime (Event Sample.hour_task))
               - instant (StartTime (Event Sample.hour_task)) <= maxDuration)
    by (vm_compute; congruence).
  split; [exact H1 | split; [exact H2 | split; [exact H3 |]]].
  exact (proj1 (shouldRemindEvent_iff (mkConfig false "events" 0) Sample.cfg
                  (Sample.clock 10 21) Sample.hour_task H1 H2 H3)).
Defined.

(** C4 as the design document states it fails one interval after the last
    reminder exactly: with three repeats the task of 10:00 to 11:00, last
    reminded at 10:00, is not reminded at 10:20. *)
Lemma remind_misses_interval_instant :
  loadConfig (Ok (mkConfig false "events" 0)) = Ok Sample.cfg /\
  IsZero (EndTime (Event Sample.hour_task)) = false /\
  (EndAnnounced Sample.hour_task = false /\
   instant (Sample.clock 10 0) <= instant (Sample.clock 10 20)
     <= instant (Sample.clock 11 0) /\
   (IsZero (LastTimeReminded Sample.hour_task) = true \/
    instant (LastTimeReminded Sample.hour_task)
      + Z.quot (instant (Sample.clock 11 0) - instant (Sample.clock 10 0)) 3
      <= instant (Sample.clock 10 20)))
  /\ shouldRemindEvent Sample.cfg (Sample.clock 10 20) Sample.hour_task = false.
Proof. vm_compute. intuition congruence. Qed.

(** ** One event in one tick *)

Lemma spoken_updateEvent env e w :
  spoken (updateEvent env e w).2 = spoken w.
Proof.
  unfold updateEvent, json_MarshalIndent, os_WriteFile, bind, fail, ret, setDisk.
  repeat case_match; simplify_eq; reflexivity.
Qed.

Lemma spoken_logDebug cfg msg w :
  spoken (logDebug cfg msg w).2 = spoken w
  /\ exists w', logDebug cfg msg w = (Ok tt, w').
Proof.
  unfold logDebug, logLine, ret. destruct (DebugLogEnabled cfg); simpl; eauto.
Qed.

(** The announcements one event adds to the tick. *)
Lemma remindEvent_spoken env cfg now e w :
  spoken (remindEvent env cfg now e w).2 =
  spoken w ++
    (if shouldAnnounceEventStart now e then [(AnnounceStart, ID (Event e))]
     else if shouldCheckEventStarted now e then [(CheckStarted, ID (Event e))]
     else if shouldRemindEvent cfg now e then [(Remind, ID (Event e))]
     else if shouldAnnounceEventEnd now e then [(AnnounceEnd, ID (Event e))]
     else [])
  /\ exists w', remindEvent env cfg now e w = (Ok tt, w').
Proof.
  unfold remindEvent.
  destruct (shouldAnnounceEventStart now e);
    [| destruct (shouldCheckEventStarted now e);
       [| destruct (shouldRemindEvent cfg now e);
          [| destruct (shouldAnnounceEventEnd now e)]]];
    unfold setStartAnnounced, setStartChecked, setReminded, setEndAnnounced;
    unfold bind, attempt, announceTask, ret;
    repeat match goal with
           | |- context [logDebug ?c ?m ?w0] =>
               let Hs := fresh "Hs" in
               let w1 := fresh "w" in
               let Hw := fresh "Hw" in
               destruct (spoken_logDebug c m w0) as [Hs [w1 Hw]];
               rewrite Hw in *; simpl in Hs
           | |- context [updateEvent ?v ?x ?w0] =>
               let Hs := fresh "Hs" in
               pose proof (spoken_updateEvent v x w0) as Hs;
               destruct (updateEvent v x w0) as [? ?]; simpl in Hs
           end; simpl; try (split; [congruence | eauto]).
  split; [symmetry; apply app_nil_r | eauto].
Qed.

(** C1: for every event and every instant, one pass of the loop body of
    [remindCurrentEvents] over the event hands at most one announcement
    to [announceTask], and it is the first due in the order AnnounceStart,
    CheckStarted, Remind, AnnounceEnd: a guard that holds silences every
    later one. *)
Theorem remindEvent_at_most_one env cfg now e w :
  exists ds : list (Decision * string),
    spoken (remindEvent env cfg now e w).2 = spoken w ++ ds
    /\ (length ds <= 1)%nat
    /\ ds =
       (if shouldAnnounceEventStart now e then [(AnnounceStart, ID (Event e))]
        else if shouldCheckEventStarted now e then [(CheckStarted, ID (Event e))]
        else if shouldRemindEvent cfg now e then [(Remind, ID (Event e))]
        else if shouldAnnounceEventEnd now e then [(AnnounceEnd, ID (Event e))]
        else []).
Proof.
  eexists. split; [apply remindEvent_spoken |]. split; [| reflexivity].
  repeat case_match; simpl; lia.
Qed.

(** Over a whole working set, a tick makes no more announcements than it
    has events. *)
Lemma remindEvents_loop_spoken env cfg now events : forall w,
  exists ds : list (Decision * string),
    spoken (remindEvents_loop env cfg now events w).2 = spoken w ++ ds
    /\ (length ds <= length events)%nat.
Proof.
  induction events as [| e rest IH]; intros w; simpl.
  - exists []. split; [symmetry; apply app_nil_r | simpl; lia].
  - destruct (remindEvent_spoken env cfg now e w) as [Hds [w1 Hw1]].
    unfold bind. rewrite Hw1 in *. simpl in Hds.
    destruct (IH w1) as (ds' & Hds' & Hlen').
    eexists (_ ++ ds'). rewrite Hds', Hds, length_app, app_assoc.
    split; [reflexivity |].
    repeat case_match; simpl; lia.
Qed.

(** ** File names *)

Lemma length_append (s t : string) :
  String.length (s +:+ t) = (String.length s + String.length t)%nat.
Proof. induction s as [| c s IH]; simpl; [reflexivity | now rewrite IH]. Qed.

Lemma HasSuffix_unfold s suffix :
  HasSuffix s suffix =
  if String.eqb s suffix then true
  else match s with
       | EmptyString => false
       | String _ rest => HasSuffix rest suffix
       end.
Proof. destruct s; reflexivity. Qed.

Lemma TrimSuffix_unfold s suffix :
  TrimSuffix s suffix =
  if String.eqb s suffix then EmptyString
  else match s with
       | EmptyString => EmptyString
       | String c rest => String c (TrimSuffix rest suffix)
       end.
Proof. destruct s; reflexivity. Qed.

Lemma HasSuffix_append id suffix : HasSuffix (id +:+ suffix) suffix = true.
Proof.
  induction id as [| c id IH].
  - simpl. rewrite HasSuffix_unfold, String.eqb_refl. reflexivity.
  - change (String c id +:+ suffix) with (String c (id +:+ suffix)).
    rewrite HasSuffix_unfold.
    destruct (String.eqb (String c (id +:+ suffix)) suffix); [reflexivity | exact IH].
Qed.

Lemma TrimSuffix_append id suffix : TrimSuffix (id +:+ suffix) suffix = id.
Proof.
  induction id as [| c id IH].
  - simpl. rewrite TrimSuffix_unfold, String.eqb_refl. reflexivity.
  - change (String c id +:+ suffix) with (String c (id +:+ suffix)).
    rewrite TrimSuffix_unfold.
    destruct (String.eqb_spec (String c (id +:+ suffix)) suffix) as [Heq | _].
    + apply (f_equal String.length) in Heq. simpl in Heq.
      rewrite length_append in Heq. lia.
    + now rewrite IH.
Qed.

Lemma HasSuffix_TrimSuffix s suffix :
  HasSuffix s suffix = true -> s = TrimSuffix s suffix +:+ suffix.
Proof.
  induction s as [| c s IH]; rewrite HasSuffix_unfold, TrimSuffix_unfold.
  - destruct (String.eqb_spec "" suffix) as [<- | _]; [reflexivity | discriminate].
  - destruct (String.eqb_spec (String c s) suffix) as [<- | _]; [reflexivity |].
    intros H.
    change (String c (TrimSuffix s suffix) +:+ suffix)
      with (String c (TrimSuffix s suffix +:+ suffix)).
    f_equal. exact (IH H).
Qed.

Lemma json_name_inj id1 id2 : id1 +:+ ".json" = id2 +:+ ".json" -> id1 = id2.
Proof.
  intros H. rewrite <- (TrimSuffix_append id1 ".json"), H.
  apply TrimSuffix_append.
Qed.

Lemma tempPathOf_fresh path rnd : tempPathOf path rnd <> path.
Proof.
  unfold tempPathOf. intros H. apply (f_equal String.length) in H.
  rewrite length_append in H. simpl in H. lia.
Qed.

(** ** The event store *)

Lemma run_os_WriteFile_ops name data (dir : gmap string FileContent) :
  run_ops (os_WriteFile_ops name data) dir = <[name := data]> dir.
Proof. unfold run_ops; simpl. apply insert_insert_eq. Qed.

Lemma loadEvent_reads name w :
  (loadEvent name w).2 = w.
Proof. unfold loadEvent. repeat case_match; reflexivity. Qed.

Lemma saveEventLocally_ok env event w w' :
  saveEventLocally env event w = (Ok tt, w') ->
  let dir := default ∅ (disk w) in
  disk w' = Some (<[ID event +:+ ".json" := Json (recordToSave event dir)]> dir)
  /\ spoken w' = spoken w /\ logged w' = logged w.
Proof.
  unfold saveEventLocally, ensureEventsDir, bind, attempt, loadEvent,
    json_MarshalIndent, os_WriteFile, fail, ret, setDisk, recordToSave.
  destruct w as [d sp lg]; simpl.
  intros H.
  repeat (case_match; simplify_eq; simpl in * );
    rewrite ?run_os_WriteFile_ops, ?insert_insert_eq; simplify_map_eq; auto.
Qed.

Lemma saveEventLocally_succeeds env event w :
  mkdir_fails env = false ->
  (forall e, marshal_fails env e = false) ->
  (forall name, write_fails env name = false) ->
  exists w', saveEventLocally env event w = (Ok tt, w') /\ disk w' <> None.
Proof.
  intros Hmk Hma Hwr.
  unfold saveEventLocally, ensureEventsDir, bind, attempt, loadEvent,
    json_MarshalIndent, os_WriteFile, fail, ret, setDisk.
  destruct w as [d sp lg]; simpl. rewrite !Hmk.
  repeat (case_match; simplify_eq; simpl in * );
    rewrite ?Hma, ?Hwr in *; simplify_eq; eauto.
Qed.

(** C7: when the store holds a readable record under the identifier of
    [event], [saveEventLocally] writes [event] with the four lifecycle
    fields of that record; saving the same event once more changes
    nothing at all, so no lifecycle field moves. *)
Theorem saveEventLocally_carries_forward env event old dir w :
  disk w = Some dir ->
  dir !! (ID event +:+ ".json") = Some (Json old) ->
  marshal_fails env
    (mkLocalEvent event (StartAnnounced old) (CheckStartAnnounced old)
       (EndAnnounced old) (LastTimeReminded old)) = false ->
  write_fails env (ID event +:+ ".json") = false ->
  exists w1,
    saveEventLocally env event w = (Ok tt, w1)
    /\ disk w1 =
       Some (<[ID event +:+ ".json" :=
                 Json (mkLocalEvent event (StartAnnounced old)
                         (CheckStartAnnounced old) (EndAnnounced old)
                         (LastTimeReminded old))]> dir)
    /\ saveEventLocally env event w1 = (Ok tt, w1).
Proof.
  intros Hdisk Hold Hmarshal Hwrite.
  destruct w as [d sp lg]; simpl in Hdisk; subst d.
  eexists. split; [| split].
  - unfold saveEventLocally, ensureEventsDir, bind, attempt, loadEvent,
      json_MarshalIndent, os_WriteFile, ret, setDisk; simpl.
    rewrite Hold; simpl. rewrite Hmarshal; simpl. rewrite Hwrite.
    unfold run_ops; simpl. rewrite insert_insert_eq. reflexivity.
  - reflexivity.
  - unfold saveEventLocally, ensureEventsDir, bind, attempt, loadEvent,
      json_MarshalIndent, os_WriteFile, ret, setDisk; simpl.
    rewrite lookup_insert_eq; simpl. rewrite Hmarshal; simpl. rewrite Hwrite.
    unfold run_ops; simpl. rewrite !insert_insert_eq. reflexivity.
Qed.

Lemma saveEventLocally_carries_forward_witness :
  disk Sample.worldA = Some Sample.dirA /\
  Sample.dirA !! (ID Sample.task +:+ ".json") = Some (Json Sample.started) /\
  exists w1,
    saveEventLocally Sample.env Sample.task Sample.worldA = (Ok tt, w1)
    /\ disk w1 = Some (<[ "A.json" := Json Sample.started ]> Sample.dirA)
    /\ saveEventLocally Sample.env Sample.task w1 = (Ok tt, w1).
Proof.
  split; [reflexivity |]. split; [reflexivity |].
  apply (saveEventLocally_carries_forward Sample.env Sample.task Sample.started
           Sample.dirA Sample.worldA); reflexivity.
Defined.

(** ** Reconciliation *)

Lemma recordToSave_ID event dir : ID (Event (recordToSave event dir)) = ID event.
Proof. unfold recordToSave. repeat case_match; reflexivity. Qed.

Lemma saveEvents_loop_ok env events : forall w w',
  saveEvents_loop env events w = (Ok tt, w') ->
  (events <> [] -> disk w' <> None)
  /\ (events = [] -> w' = w)
  /\ (forall id, id ∈ ID <$> events ->
        exists e, default ∅ (disk w') !! (id +:+ ".json") = Some (Json e)
                  /\ ID (Event e) = id)
  /\ (forall name, (forall id, id ∈ ID <$> events -> name <> id +:+ ".json") ->
        default ∅ (disk w') !! name = default ∅ (disk w) !! name).
Proof.
  induction events as [| event rest IH]; intros w w'; simpl.
  - unfold ret. intros [= <-]. repeat split; try done.
    intros id Hid. apply elem_of_nil in Hid. done.
  - unfold bind.
    destruct (saveEventLocally env event w) as [[[] | err] w1] eqn:Hsave;
      [| discriminate].
    intros Hrest.
    apply saveEventLocally_ok in Hsave. simpl in Hsave.
    destruct Hsave as (Hdisk1 & _ & _).
    destruct (IH _ _ Hrest) as (Hsome & Hnil & Hsaved & Hother).
    assert (Hdisk' : disk w' <> None).
    { destruct rest as [| ev' rest'].
      - rewrite (Hnil eq_refl), Hdisk1. done.
      - apply Hsome. done. }
    repeat split; try done.
    + intros id Hid. apply elem_of_cons in Hid.
      destruct (decide (id ∈ ID <$> rest)) as [Hin | Hnotin].
      { apply Hsaved, Hin. }
      destruct Hid as [-> | Hin]; [| done].
      rewrite Hother, Hdisk1; simpl.
      * rewrite lookup_insert_eq. eexists. split; [reflexivity |].
        apply recordToSave_ID.
      * intros id Hid Heq. apply json_name_inj in Heq. congruence.
    + intros name Hname.
      rewrite Hother, Hdisk1; simpl.
      * rewrite lookup_insert_ne; [reflexivity |].
        intros Heq. apply (Hname (ID event)); [| done].
        apply elem_of_cons. by left.
      * intros id Hid. apply Hname. apply elem_of_cons. by right.
Qed.

Lemma saveEvents_loop_succeeds env events :
  mkdir_fails env = false ->
  (forall e, marshal_fails env e = false) ->
  (forall name, write_fails env name = false) ->
  forall w, exists w', saveEvents_loop env events w = (Ok tt, w').
Proof.
  intros Hmk Hma Hwr.
  induction events as [| event rest IH]; intros w; simpl.
  - eexists. reflexivity.
  - destruct (saveEventLocally_succeeds env event w Hmk Hma Hwr) as (w1 & Hw1 & _).
    unfold bind. rewrite Hw1. apply IH.
Qed.

Lemma found_iff (events : list CalendarEvent) id :
  existsb (fun event => String.eqb (ID event) id) events = true <-> id ∈ ID <$> events.
Proof.
  induction events as [| ev rest IH]; simpl.
  - split; [discriminate | intros H; apply elem_of_nil in H; done].
  - rewrite orb_true_iff, IH, String.eqb_eq, elem_of_cons. intuition congruence.
Qed.

Lemma stale_json_name events id :
  stale events (id +:+ ".json") = negb (bool_decide (id ∈ ID <$> events)).
Proof.
  unfold stale. rewrite HasSuffix_append, TrimSuffix_append. simpl. f_equal.
  apply eq_true_iff_eq. rewrite found_iff, bool_decide_eq_true. done.
Qed.

Lemma removeLocalEvents_loop_ok env events files : forall w w' dir,
  disk w = Some dir ->
  removeLocalEvents_loop env events files w = (Ok tt, w') ->
  exists dir',
    disk w' = Some dir'
    /\ forall name,
         dir' !! name =
         if stale events name && bool_decide (name ∈ files) then None
         else dir !! name.
Proof.
  induction files as [| file rest IH]; intros w w' dir Hdisk; simpl.
  - unfold ret. intros [= <-]. exists dir. split; [done |].
    intros name. by rewrite andb_false_r.
  - assert (Hkeep : stale events file = false ->
                    removeLocalEvents_loop env events rest w = (Ok tt, w') ->
                    exists dir',
                      disk w' = Some dir'
                      /\ forall name,
                           dir' !! name =
                           if stale events name && bool_decide (name ∈ file :: rest)
                           then None else dir !! name).
    { intros Hstale Hrest.
      destruct (IH _ _ _ Hdisk Hrest) as (dir' & Hd' & Hlook).
      exists dir'. split; [done |]. intros name. rewrite Hlook.
      destruct (decide (name = file)) as [-> | Hne].
      - rewrite Hstale. done.
      - rewrite (bool_decide_ext (name ∈ file :: rest) (name ∈ rest)); [done |].
        rewrite elem_of_cons. intuition congruence. }
    destruct (HasSuffix file ".json") eqn:Hsuf;
      [destruct (existsb (fun event => String.eqb (ID event) (TrimSuffix file ".json"))
                   events) eqn:Hfound |]; simpl.
    + apply Hkeep. unfold stale. by rewrite Hsuf, Hfound.
    + assert (Hstale : stale events file = true)
        by (unfold stale; by rewrite Hsuf, Hfound).
      clear Hkeep. unfold bind, os_Remove. rewrite Hdisk.
      destruct (remove_fails env file); [discriminate |].
      destruct (dir !! file) eqn:Hfile; [| discriminate].
      unfold setDisk; simpl. intros Hrest.
      destruct (IH (mkWorld (Some (delete file dir)) (spoken w) (logged w)) w'
                  (delete file dir) eq_refl Hrest) as (dir' & Hd' & Hlook).
      exists dir'. split; [done |]. intros name. rewrite Hlook.
      destruct (decide (name = file)) as [-> | Hne].
      * rewrite lookup_delete_eq, Hstale.
        rewrite (bool_decide_eq_true_2 (file ∈ file :: rest)); [| by left].
        by case_match.
      * rewrite lookup_delete_ne by done.
        rewrite (bool_decide_ext (name ∈ file :: rest) (name ∈ rest)); [done |].
        rewrite elem_of_cons. intuition congruence.
    + apply Hkeep. unfold stale. by rewrite Hsuf.
Qed.

Lemma removeLocalEventsNotInCalendar_ok env events w w' :
  removeLocalEventsNotInCalendar env events w = (Ok tt, w') ->
  exists dir dir',
    disk w = Some dir /\ disk w' = Some dir'
    /\ forall name, dir' !! name = if stale events name then None else dir !! name.
Proof.
  unfold removeLocalEventsNotInCalendar, bind, os_ReadDir.
  destruct (disk w) as [dir |] eqn:Hdisk; [| discriminate].
  intros Hloop.
  destruct (removeLocalEvents_loop_ok _ _ _ _ _ _ Hdisk Hloop) as (dir' & Hd' & Hlook).
  exists dir, dir'. repeat split; try done.
  intros name. rewrite Hlook.
  destruct (stale events name); simpl; [| done].
  case_bool_decide as Hin; [done |].
  destruct (dir !! name) as [c |] eqn:Hname; [| done].
  exfalso. apply Hin. apply list_elem_of_fmap. exists (name, c).
  split; [done |]. by apply elem_of_map_to_list.
Qed.

Lemma removeLocalEvents_loop_succeeds env events files :
  (forall name, remove_fails env name = false) ->
  forall w dir,
    disk w = Some dir ->
    NoDup files ->
    (forall name, name ∈ files -> is_Some (dir !! name)) ->
    exists w', removeLocalEvents_loop env events files w = (Ok tt, w').
Proof.
  intros Hrm.
  induction files as [| file rest IH]; intros w dir Hdisk Hnodup Hall; simpl.
  - eexists. reflexivity.
  - apply NoDup_cons in Hnodup as [Hnotin Hnodup].
    assert (Hrest : forall name, name ∈ rest -> is_Some (dir !! name)).
    { intros name Hin. apply Hall. apply elem_of_cons. by right. }
    destruct (HasSuffix file ".json");
      [destruct (existsb (fun event => String.eqb (ID event) (TrimSuffix file ".json"))
                   events) |]; simpl; try (by eapply IH).
    unfold bind, os_Remove. rewrite Hdisk, Hrm.
    destruct (Hall file) as [c Hc]; [by left |]. rewrite Hc.
    unfold setDisk; simpl.
    apply (IH _ (delete file dir)); [done | done |].
    intros name Hin. rewrite lookup_delete_ne; [by apply Hrest |].
    intros ->. done.
Qed.


(** Reconciliation does return without error when the file system
    refuses nothing, unless there is neither a remote event nor an
    events directory to list. *)
Lemma syncLocalEvents_succeeds env events w :
  mkdir_fails env = false ->
  (forall e, marshal_fails env e = false) ->
  (forall name, write_fails env name = false) ->
  (forall name, remove_fails env name = false) ->
  events <> [] \/ disk w <> None ->
  exists w', syncLocalEvents env events w = (Ok tt, w').
Proof.
  intros Hmk Hma Hwr Hrm Hsome.
  destruct (saveEvents_loop_succeeds env events Hmk Hma Hwr w) as [w1 Hw1].
  unfold syncLocalEvents, bind. rewrite Hw1.
  destruct (saveEvents_loop_ok _ _ _ _ Hw1) as (Hne & Hnil & _ & _).
  assert (Hd1 : disk w1 <> None).
  { destruct events as [| ev rest]; [| by apply Hne].
    rewrite (Hnil eq_refl). by destruct Hsome. }
  destruct (disk w1) as [dir1 |] eqn:Hdisk1; [| done].
  unfold removeLocalEventsNotInCalendar, bind, os_ReadDir. rewrite Hdisk1.
  apply (removeLocalEvents_loop_succeeds env events _ Hrm w1 dir1 Hdisk1).
  - apply NoDup_fst_map_to_list.
  - intros name Hin. apply list_elem_of_fmap in Hin as ([name' c] & -> & Hin).
    apply elem_of_map_to_list in Hin. by exists c.
Qed.


(** The pruning scenario of the design document: the store holds A, B
    and C, the calendar now has A and C; afterwards the record of B is
    gone and A keeps the flags it had. *)
Example syncLocalEvents_prunes_B :
  exists dir',
    disk (syncLocalEvents Sample.env [Sample.task; Sample.taskC] Sample.worldABC).2
      = Some dir'
    /\ dir' !! "B.json" = None
    /\ dir' !! "A.json" = Some (Json Sample.started)
    /\ dir' !! "C.json" = Some (Json (Sample.fresh Sample.taskC)).
Proof. eexists. vm_compute. repeat split; reflexivity. Qed.

(** ** Loading the working set *)

Lemma loadTodayEvents_loop_step env now file rest events w dir e :
  disk w = Some dir ->
  dir !! file = Some (Json e) ->
  exists w',
    disk w' = disk w /\ spoken w' = spoken w
    /\ loadTodayEvents_loop env now (file :: rest) events w =
       loadTodayEvents_loop env now rest
         (events ++ (if inWorkingSet now e then [zoneFixed env e] else [])) w'.
Proof.
  intros Hdisk Hfile. simpl.
  unfold bind at 1, attempt, loadEvent. rewrite Hdisk, Hfile.
  unfold inWorkingSet, zoneFixed.
  destruct (scheduledForToday now e); simpl;
    [| exists w; by rewrite app_nil_r].
  destruct (After now (EndTime (Event e))) eqn:Hafter; simpl;
    [exists w; by rewrite app_nil_r |].
  destruct (String.eqb (TimeZone (Event e)) ""); simpl; [by exists w |].
  unfold bind, logLine, ret.
  destruct (LoadLocation env (TimeZone (Event e))) as [loc |]; simpl.
  - unfold After in *. simpl. rewrite Hafter. by exists w.
  - unfold After in *. simpl. rewrite Hafter. eexists. split_and!; [| | done]; done.
Qed.

Lemma loadTodayEvents_loop_ok env now files : forall events w dir,
  disk w = Some dir ->
  (forall name, name ∈ files -> exists e, dir !! name = Some (Json e)) ->
  exists w',
    disk w' = disk w /\ spoken w' = spoken w
    /\ loadTodayEvents_loop env now files events w =
       (Ok (events ++
              omap (fun name =>
                      match dir !! name with
                      | Some (Json e) =>
                          if inWorkingSet now e then Some (zoneFixed env e) else None
                      | _ => None
                      end) files), w').
Proof.
  induction files as [| file rest IH]; intros events w dir Hdisk Hall.
  - exists w. simpl. by rewrite app_nil_r.
  - destruct (Hall file) as [e He]; [by left |].
    destruct (loadTodayEvents_loop_step env now file rest events w dir e Hdisk He)
      as (w1 & Hd1 & Hs1 & ->).
    destruct (IH (events ++ (if inWorkingSet now e then [zoneFixed env e] else []))
                w1 dir) as (w' & Hd' & Hs' & ->).
    { congruence. }
    { intros name Hin. apply Hall. by right. }
    exists w'. split_and!; [congruence | congruence |].
    simpl. rewrite He. destruct (inWorkingSet now e); simpl.
    + by rewrite <- app_assoc.
    + by rewrite app_nil_r.
Qed.

Lemma loadTodayEvents_loop_fails env now files : forall events w dir,
  disk w = Some dir ->
  (forall name, name ∈ files -> is_Some (dir !! name)) ->
  (exists name bytes, name ∈ files /\ dir !! name = Some (Corrupt bytes)) ->
  exists name w',
    disk w' = disk w /\ spoken w' = spoken w
    /\ loadTodayEvents_loop env now files events w =
       (Err (ELoadEvent name (EUnmarshal name)), w').
Proof.
  induction files as [| file rest IH]; intros events w dir Hdisk Hall Hbad.
  - destruct Hbad as (name & bytes & Hin & _). by apply elem_of_nil in Hin.
  - destruct (Hall file) as [[e | bytes] Hfile]; [by left | |].
    + destruct (loadTodayEvents_loop_step env now file rest events w dir e Hdisk Hfile)
        as (w1 & Hd1 & Hs1 & ->).
      destruct (IH (events ++ (if inWorkingSet now e then [zoneFixed env e] else []))
                  w1 dir) as (name & w' & Hd' & Hs' & ->).
      { congruence. }
      { intros name Hin. apply Hall. by right. }
      { destruct Hbad as (name & bytes & Hin & Hname).
        apply elem_of_cons in Hin as [-> | Hin]; [congruence |].
        by exists name, bytes. }
      exists name, w'. split_and!; congruence.
    + exists file, w. simpl. unfold bind, attempt, loadEvent, fail.
      rewrite Hdisk, Hfile. done.
Qed.

Lemma listed_files (dir : gmap string FileContent) name :
  name ∈ (map_to_list dir).*1 <-> is_Some (dir !! name).
Proof.
  rewrite list_elem_of_fmap. split.
  - intros ([name' c] & -> & Hin). apply elem_of_map_to_list in Hin. by exists c.
  - intros [c Hc]. exists (name, c). split; [done |]. by apply elem_of_map_to_list.
Qed.

(** C2 (as amended): [loadTodayEvents] is all or nothing.  If some
    stored record cannot be parsed, it returns an error and no event at
    all; [remindCurrentEvents] logs that error and announces nothing in
    that tick.  If every stored record parses, it returns exactly the
    records scheduled for today whose end time has not passed, each moved
    to its time zone. *)
Theorem loadTodayEvents_all_or_nothing env cfg now w dir :
  disk w = Some dir ->
  ((exists name bytes, dir !! name = Some (Corrupt bytes)) ->
   exists name w1 w2,
     loadTodayEvents env now w = (Err (ELoadEvent name (EUnmarshal name)), w1)
     /\ remindCurrentEvents env cfg now w = (Ok tt, w2)
     /\ spoken w2 = spoken w
     /\ last (logged w2) =
        Some (LogLoadEventsFailed (ELoadEvent name (EUnmarshal name))))
  /\ ((forall name c, dir !! name = Some c -> exists e, c = Json e) ->
      exists events w1,
        loadTodayEvents env now w = (Ok events, w1)
        /\ forall e',
             e' ∈ events <->
             exists name e,
               dir !! name = Some (Json e)
               /\ scheduledForToday now e = true
               /\ After now (EndTime (Event e)) = false
               /\ e' = zoneFixed env e).
Proof.
  intros Hdisk. split.
  - intros (bad & bytes & Hbad).
    destruct (loadTodayEvents_loop_fails env now (map_to_list dir).*1 [] w dir Hdisk)
      as (name & w1 & Hd1 & Hs1 & Hloop).
    { intros name. apply listed_files. }
    { exists bad, bytes. split; [| done]. apply listed_files. by exists (Corrupt bytes). }
    assert (Hload : loadTodayEvents env now w =
                    (Err (ELoadEvent name (EUnmarshal name)), w1)).
    { unfold loadTodayEvents, bind, os_ReadDir. by rewrite Hdisk. }
    exists name, w1. eexists. split; [exact Hload |].
    unfold remindCurrentEvents, bind at 1, attempt. rewrite Hload.
    unfold bind, logLine, ret; simpl.
    split_and!; [reflexivity | done | apply last_snoc].
  - intros Hall.
    destruct (loadTodayEvents_loop_ok env now (map_to_list dir).*1 [] w dir Hdisk)
      as (w1 & Hd1 & Hs1 & Hloop).
    { intros name Hin. apply listed_files in Hin as [c Hc].
      destruct (Hall name c Hc) as [e ->]. by exists e. }
    eexists. exists w1. split.
    { unfold loadTodayEvents, bind, os_ReadDir. rewrite Hdisk. exact Hloop. }
    intros e'. simpl. rewrite list_elem_of_omap. split.
    + intros (name & Hin & Hpick).
      destruct (dir !! name) as [[e | bytes] |] eqn:Hname; try discriminate.
      unfold inWorkingSet in Hpick.
      destruct (scheduledForToday now e) eqn:Htoday; [| discriminate].
      destruct (After now (EndTime (Event e))) eqn:Hafter; [discriminate |].
      simpl in Hpick. exists name, e. split_and!; congruence.
    + intros (name & e & Hname & Htoday & Hafter & ->).
      exists name. split; [apply listed_files; by exists (Json e) |].
      rewrite Hname. unfold inWorkingSet. by rewrite Htoday, Hafter.
Qed.

Lemma loadTodayEvents_all_or_nothing_witness :
  disk Sample.worldCorrupt = Some Sample.dirCorrupt
  /\ ((exists name bytes, Sample.dirCorrupt !! name = Some (Corrupt bytes)) ->
      exists name w1 w2,
        loadTodayEvents Sample.env (Sample.clock 14 10) Sample.worldCorrupt =
          (Err (ELoadEvent name (EUnmarshal name)), w1)
        /\ remindCurrentEvents Sample.env Sample.cfg (Sample.clock 14 10)
             Sample.worldCorrupt = (Ok tt, w2)
        /\ spoken w2 = spoken Sample.worldCorrupt
        /\ last (logged w2) =
           Some (LogLoadEventsFailed (ELoadEvent name (EUnmarshal name)))).
Proof.
  assert (H : disk Sample.worldCorrupt = Some Sample.dirCorrupt) by reflexivity.
  split; [exact H |].
  exact (proj1 (loadTodayEvents_all_or_nothing Sample.env Sample.cfg
                  (Sample.clock 14 10) Sample.worldCorrupt Sample.dirCorrupt H)).
Defined.

(** C2 as the design document states it fails on a store with one valid
    record of today (A, ending at 14:30) and one unreadable record (B): at
    14:10 the load returns an error instead of the record of A. *)
Lemma corrupt_record_fails_whole_load :
  Sample.dirCorrupt !! "A.json" = Some (Json Sample.started)
  /\ inWorkingSet (Sample.clock 14 10) Sample.started = true
  /\ Sample.dirCorrupt !! "B.json" = Some (Corrupt "{")
  /\ loadTodayEvents Sample.env (Sample.clock 14 10) Sample.worldCorrupt =
     (Err (ELoadEvent "B.json" (EUnmarshal "B.json")), Sample.worldCorrupt).
Proof. vm_compute. repeat split; reflexivity. Qed.

(** With every record readable, the same load returns the records of
    today that have not ended: at 14:10, A and C but not B (over since
    9:30). *)
Example loadTodayEvents_sample :
  exists events,
    loadTodayEvents Sample.env (Sample.clock 14 10) Sample.worldABC =
      (Ok events, Sample.worldABC)
    /\ Sample.started ∈ events
    /\ zoneFixed Sample.env (Sample.fresh Sample.taskC) ∈ events
    /\ length events = 2%nat.
Proof.
  eexists. split; [vm_compute; reflexivity |].
  split_and!; [| | reflexivity]; vm_compute; repeat constructor.
Qed.

(** ** Events without an end time *)

Lemma loadTodayEvents_loop_ended env now files : forall events w events' w',
  loadTodayEvents_loop env now files events w = (Ok events', w') ->
  (forall e, e ∈ events -> After now (EndTime (Event e)) = false) ->
  forall e, e ∈ events' -> After now (EndTime (Event e)) = false.
Proof.
  induction files as [| file rest IH]; intros events w events' w'; simpl.
  - unfold ret. intros [= <- <-]. auto.
  - unfold bind at 1, attempt.
    pose proof (loadEvent_reads file w) as Hw.
    destruct (loadEvent file w) as [[e | err] w1]; simpl in Hw; subst w1;
      [| discriminate].
    assert (Hsnoc : forall e0, After now (EndTime (Event e0)) = false ->
              forall x, x ∈ events ++ [e0] ->
                (forall y, y ∈ events -> After now (EndTime (Event y)) = false) ->
                After now (EndTime (Event x)) = false).
    { intros e0 He0 x Hx Hev. apply elem_of_app in Hx as [Hx | Hx]; [by apply Hev |].
      apply list_elem_of_singleton in Hx. by subst x. }
    destruct (negb (scheduledForToday now e) || After now (EndTime (Event e))) eqn:Hskip.
    { intros Hloop Hev. by eapply IH. }
    apply orb_false_iff in Hskip as [_ Hafter].
    destruct (negb (String.eqb (TimeZone (Event e)) "")).
    + unfold bind.
      destruct (match LoadLocation env (TimeZone (Event e)) with
                | Some loc => ret loc
                | None => _
                end w) as [[loc | err] w1]; [| discriminate].
      change (After now (In (EndTime (Event e)) loc))
        with (After now (EndTime (Event e))).
      rewrite Hafter.
      intros Hloop Hev. eapply IH; [exact Hloop |].
      intros x Hx. exact (Hsnoc (inZone loc e) Hafter x Hx Hev).
    + intros Hloop Hev. eapply IH; [exact Hloop |].
      intros x Hx. exact (Hsnoc e Hafter x Hx Hev).
Qed.

(** C9 (as amended): for an event whose end time is the zero time, at
    every instant after the zero time, the guards of AnnounceStart, Remind
    and AnnounceEnd are all false, so the only announcement a pass over
    the event can make is CheckStarted; and [loadTodayEvents] returns no
    event with a zero end time, so the tick never reaches such an event. *)
Theorem zero_end_event_decisions env cfg now e w :
  IsZero (EndTime (Event e)) = true ->
  0 < instant now ->
  shouldAnnounceEventStart now e = false
  /\ shouldRemindEvent cfg now e = false
  /\ shouldAnnounceEventEnd now e = false
  /\ spoken (remindEvent env cfg now e w).2 =
     spoken w ++
       (if shouldCheckEventStarted now e then [(CheckStarted, ID (Event e))] else [])
  /\ (forall events w',
        loadTodayEvents env now w = (Ok events, w') ->
        forall e', e' ∈ events -> IsZero (EndTime (Event e')) = false).
Proof.
  intros Hzero Hnow.
  assert (Hend : instant (EndTime (Event e)) = 0)
    by (unfold IsZero in Hzero; by apply Z.eqb_eq in Hzero).
  assert (Hstart : shouldAnnounceEventStart now e = false).
  { unfold shouldAnnounceEventStart.
    destruct (scheduledForNow now e) eqn:Hsn; [| by rewrite andb_false_r].
    apply scheduledForNow_spec in Hsn. lia. }
  assert (Hremind : shouldRemindEvent cfg now e = false).
  { unfold shouldRemindEvent. rewrite Hzero. by rewrite orb_true_r. }
  assert (Hfinish : shouldAnnounceEventEnd now e = false).
  { unfold shouldAnnounceEventEnd, scheduledNearEnd. rewrite Hzero.
    by rewrite andb_false_r. }
  split_and!; try done.
  - rewrite (proj1 (remindEvent_spoken env cfg now e w)).
    by rewrite Hstart, Hremind, Hfinish.
  - unfold loadTodayEvents, bind, os_ReadDir.
    destruct (disk w) as [dir |]; [| discriminate].
    intros events w' Hloop e' Hin.
    assert (Hafter : After now (EndTime (Event e')) = false).
    { eapply loadTodayEvents_loop_ended; [exact Hloop | | exact Hin].
      intros x Hx. by apply elem_of_nil in Hx. }
    unfold After in Hafter. apply Z.ltb_ge in Hafter.
    unfold IsZero. apply Z.eqb_neq. lia.
Qed.

Lemma zero_end_event_decisions_witness :
  IsZero (EndTime (Event (Sample.fresh Sample.open_ended))) = true
  /\ 0 < instant (Sample.clock 14 5)
  /\ shouldAnnounceEventStart (Sample.clock 14 5) (Sample.fresh Sample.open_ended) = false
  /\ shouldRemindEvent Sample.cfg (Sample.clock 14 5) (Sample.fresh Sample.open_ended)
     = false
  /\ shouldAnnounceEventEnd (Sample.clock 14 5) (Sample.fresh Sample.open_ended) = false.
Proof.
  assert (H1 : IsZero (EndTime (Event (Sample.fresh Sample.open_ended))) = true)
    by reflexivity.
  assert (H2 : 0 < instant (Sample.clock 14 5)) by reflexivity.
  split; [exact H1 |]. split; [exact H2 |].
  destruct (zero_end_event_decisions Sample.env Sample.cfg (Sample.clock 14 5)
              (Sample.fresh Sample.open_ended) Sample.worldOpen H1 H2)
    as (Ha & Hb & Hc & _).
  split; [exact Ha |]. split; [exact Hb | exact Hc].
Defined.

(** C9 as the design document states it fails on a task of 14:00 without
    end time: at 14:05 it is unannounced, scheduled for today and past
    its start, yet no start announcement is due, a pass over it announces
    nothing, and the load of the working set leaves it out. *)
Lemma open_ended_event_not_announced :
  IsZero (EndTime Sample.open_ended) = true
  /\ StartAnnounced (Sample.fresh Sample.open_ended) = false
  /\ scheduledForToday (Sample.clock 14 5) (Sample.fresh Sample.open_ended) = true
  /\ instant (StartTime Sample.open_ended) < instant (Sample.clock 14 5)
  /\ shouldAnnounceEventStart (Sample.clock 14 5) (Sample.fresh Sample.open_ended) = false
  /\ spoken (remindEvent Sample.env Sample.cfg (Sample.clock 14 5)
               (Sample.fresh Sample.open_ended) Sample.worldOpen).2 = []
  /\ loadTodayEvents Sample.env (Sample.clock 14 5) Sample.worldOpen =
     (Ok [], Sample.worldOpen).
Proof. vm_compute. repeat split; reflexivity. Qed.

(** ** Writes and crashes *)

(** [updateEvent] changes the directory by the calls of [updateEvent_ops]
    and, once it has returned without error, the record reads back. *)
Lemma updateEvent_runs_ops env e dir sp lg w' :
  updateEvent env e (mkWorld (Some dir) sp lg) = (Ok tt, w') ->
  w' = mkWorld (Some (run_ops (updateEvent_ops e) dir)) sp lg
  /\ loadEvent (ID (Event e) +:+ ".json") w' = (Ok e, w').
Proof.
  unfold updateEvent, json_MarshalIndent, bind, os_WriteFile, fail, ret, setDisk; simpl.
  destruct (marshal_fails env e); [discriminate |].
  destruct (write_fails env (ID (Event e) +:+ ".json")); [discriminate |].
  intros [= <-]. split; [reflexivity |].
  unfold loadEvent; simpl. unfold run_ops; simpl.
  by rewrite lookup_insert_eq.
Qed.

Lemma saveEventLocally_runs_ops env event dir sp lg w' :
  saveEventLocally env event (mkWorld (Some dir) sp lg) = (Ok tt, w') ->
  w' = mkWorld (Some (run_ops (saveEventLocally_ops event dir) dir)) sp lg.
Proof.
  intros H. apply saveEventLocally_ok in H. simpl in H.
  destruct H as (Hd & Hs & Hl). destruct w' as [d' sp' lg']; simpl in *.
  subst. unfold saveEventLocally_ops, run_ops; simpl. by rewrite insert_insert_eq.
Qed.

(** [writeFileAtomically] changes the directory by the calls of
    [writeFileAtomically_ops]. *)
Lemma writeFileAtomically_runs_ops env path data rnd dir sp lg w' :
  writeFileAtomically env path data rnd (mkWorld (Some dir) sp lg) = (Ok tt, w') ->
  w' = mkWorld (Some (run_ops (writeFileAtomically_ops path data rnd) dir)) sp lg.
Proof.
  unfold writeFileAtomically, bind, attempt, os_WriteFile, os_Rename, os_Remove,
    fail, ret, setDisk; simpl.
  destruct (write_fails env (tempPathOf path rnd)); [discriminate |]. simpl.
  destruct (rename_fails env (tempPathOf path rnd) path); simpl.
  { repeat case_match; discriminate. }
  unfold run_ops; simpl. rewrite !lookup_insert_eq. simpl.
  intros [= <-]. reflexivity.
Qed.

(** The helper of [utils.go] writes atomically: the temporary file is
    renamed over the target only once it is complete. *)
Lemma writeFileAtomically_atomic path data rnd dir :
  atomic_write path (writeFileAtomically_ops path data rnd) dir.
Proof.
  pose proof (tempPathOf_fresh path rnd) as Hfresh.
  intros s Hs. unfold crash_states in Hs. simpl in Hs.
  repeat (apply elem_of_cons in Hs as [-> | Hs]);
    [left | left | left | right | by apply elem_of_nil in Hs];
    unfold run_ops; simpl; rewrite ?lookup_insert_ne by done; reflexivity.
Qed.

(** C10, what the code does: a record write of the event store is an
    [os.WriteFile] on the record file itself.  A crash between its
    truncating open and its write leaves an empty file under the name of
    the record, which [loadEvent] rejects; with a record stored before,
    that state is neither the old record nor the new one.  This holds for
    [updateEvent] and for the write of [saveEventLocally] alike. *)
Theorem event_store_write_not_atomic e event dir :
  (exists s,
     s ∈ crash_states (updateEvent_ops e) dir
     /\ s !! (ID (Event e) +:+ ".json") = Some (Corrupt "")
     /\ (loadEvent (ID (Event e) +:+ ".json") (mkWorld (Some s) [] [])).1
        = Err (EUnmarshal (ID (Event e) +:+ ".json")))
  /\ (exists s,
        s ∈ crash_states (saveEventLocally_ops event dir) dir
        /\ s !! (ID event +:+ ".json") = Some (Corrupt "")
        /\ (loadEvent (ID event +:+ ".json") (mkWorld (Some s) [] [])).1
           = Err (EUnmarshal (ID event +:+ ".json")))
  /\ (forall old, dir !! (ID (Event e) +:+ ".json") = Some (Json old) ->
        ~ atomic_write (ID (Event e) +:+ ".json") (updateEvent_ops e) dir).
Proof.
  split_and!.
  - exists (<[ID (Event e) +:+ ".json" := Corrupt ""]> dir). split_and!.
    + unfold crash_states; simpl. apply elem_of_cons. right. apply elem_of_cons. by left.
    + apply lookup_insert_eq.
    + unfold loadEvent; simpl. by rewrite lookup_insert_eq.
  - exists (<[ID event +:+ ".json" := Corrupt ""]> dir). split_and!.
    + unfold crash_states; simpl. apply elem_of_cons. right. apply elem_of_cons. by left.
    + apply lookup_insert_eq.
    + unfold loadEvent; simpl. by rewrite lookup_insert_eq.
  - intros old Hold Hatomic.
    destruct (Hatomic (<[ID (Event e) +:+ ".json" := Corrupt ""]> dir)) as [H | H].
    + unfold crash_states; simpl. apply elem_of_cons. right. apply elem_of_cons. by left.
    + rewrite lookup_insert_eq, Hold in H. discriminate.
    + unfold run_ops, updateEvent_ops in H; simpl in H.
      rewrite !lookup_insert_eq in H. discriminate.
Qed.

(** The crash on the sample store: the start of A has just been
    announced and [setStartAnnounced] is updating its record. *)
Example updateEvent_crash_sample :
  exists s,
    s ∈ crash_states (updateEvent_ops (setStartAnnounced Sample.env
                                         (Sample.fresh Sample.task)).1)
          {[ "A.json" := Json (Sample.fresh Sample.task) ]}
    /\ loadEvent "A.json" (mkWorld (Some s) [] []) =
       (Err (EUnmarshal "A.json"), mkWorld (Some s) [] []).
Proof.
  eexists. split.
  - unfold crash_states; simpl. apply elem_of_cons. right. apply elem_of_cons. by left.
  - vm_compute. reflexivity.
Qed.

(** * Further properties of the code *)

(** ** Saving and reconciling *)



Lemma saveEvents_loop_lifecycle env events : forall w w1,
  saveEvents_loop env events w = (Ok tt, w1) ->
  forall name old,
    default ∅ (disk w) !! name = Some (Json old) ->
    exists r, default ∅ (disk w1) !! name = Some (Json r) /\ sameLifecycle old r.
Proof.
  induction events as [| event rest IH]; intros w w1; simpl.
  - unfold ret. intros [= <-] name old Hold. exists old. by repeat split.
  - unfold bind.
    destruct (saveEventLocally env event w) as [[[] | err] w0] eqn:Hsave;
      [| discriminate].
    intros Hrest name old Hold.
    apply saveEventLocally_ok in Hsave. simpl in Hsave.
    destruct Hsave as (Hdisk0 & _ & _).
    destruct (decide (name = ID event +:+ ".json")) as [-> | Hne].
    + destruct (IH _ _ Hrest (ID event +:+ ".json")
                  (recordToSave event (default ∅ (disk w)))) as (r & Hr & Hsame).
      { rewrite Hdisk0. simpl. apply lookup_insert_eq. }
      exists r. split; [done |].
      unfold recordToSave in Hsame. rewrite Hold in Hsame. exact Hsame.
    + apply (IH _ _ Hrest). rewrite Hdisk0. simpl. by rewrite lookup_insert_ne.
Qed.

(** X2: reconciliation keeps the lifecycle of every event that is still
    in the calendar: if the store held a readable record under an
    identifier of the remote list, then after a successful
    [syncLocalEvents] the record under that identifier has the same four
    lifecycle fields, however often the identifier occurs in the list. *)
Theorem syncLocalEvents_keeps_lifecycle env events w w' dir id old :
  syncLocalEvents env events w = (Ok tt, w') ->
  disk w = Some dir ->
  id ∈ ID <$> events ->
  dir !! (id +:+ ".json") = Some (Json old) ->
  exists r,
    loadEvent (id +:+ ".json") w' = (Ok r, w')
    /\ ID (Event r) = id
    /\ sameLifecycle old r.
Proof.
  unfold syncLocalEvents, bind.
  destruct (saveEvents_loop env events w) as [[[] | err] w1] eqn:Hsave;
    [| discriminate].
  intros Hremove Hdisk Hin Hold.
  destruct (removeLocalEventsNotInCalendar_ok _ _ _ _ Hremove)
    as (dir1 & dir' & Hd1 & Hd' & Hlook).
  destruct (saveEvents_loop_lifecycle _ _ _ _ Hsave (id +:+ ".json") old)
    as (r & Hr & Hsame).
  { by rewrite Hdisk. }
  destruct (saveEvents_loop_ok _ _ _ _ Hsave) as (_ & _ & Hsaved & _).
  destruct (Hsaved id Hin) as (r' & Hr' & Hid).
  rewrite Hd1 in Hr, Hr'. simpl in Hr, Hr'.
  assert (r' = r) by congruence. subst r'.
  exists r. split_and!; try done.
  unfold loadEvent. rewrite Hd', Hlook, stale_json_name.
  rewrite bool_decide_eq_true_2 by done. simpl. by rewrite Hr.
Qed.

Lemma syncLocalEvents_keeps_lifecycle_witness :
  syncLocalEvents Sample.env [Sample.task; Sample.taskC] Sample.worldABC =
    (Ok tt, (syncLocalEvents Sample.env [Sample.task; Sample.taskC] Sample.worldABC).2)
  /\ disk Sample.worldABC = Some Sample.dirABC
  /\ Sample.dirABC !! ("A" +:+ ".json") = Some (Json Sample.started)
  /\ exists r,
       loadEvent ("A" +:+ ".json")
         (syncLocalEvents Sample.env [Sample.task; Sample.taskC] Sample.worldABC).2 =
         (Ok r, (syncLocalEvents Sample.env [Sample.task; Sample.taskC]
                   Sample.worldABC).2)
       /\ ID (Event r) = "A"
       /\ sameLifecycle Sample.started r.
Proof.
  assert (H1 : syncLocalEvents Sample.env [Sample.task; Sample.taskC] Sample.worldABC =
               (Ok tt, (syncLocalEvents Sample.env [Sample.task; Sample.taskC]
                          Sample.worldABC).2))
    by (vm_compute; reflexivity).
  assert (H2 : disk Sample.worldABC = Some Sample.dirABC) by reflexivity.
  assert (H3 : "A" ∈ ID <$> [Sample.task; Sample.taskC]) by (simpl; by left).
  assert (H4 : Sample.dirABC !! ("A" +:+ ".json") = Some (Json Sample.started))
    by reflexivity.
  split; [exact H1 |]. split; [exact H2 |]. split; [exact H4 |].
  exact (syncLocalEvents_keeps_lifecycle Sample.env [Sample.task; Sample.taskC]
           Sample.worldABC _ Sample.dirABC "A" Sample.started H1 H2 H3 H4).
Defined.

(** X3: reconciling with an empty remote list removes every file named
    [*.json] from the store, with all lifecycle fields; files of other
    names stay.  ([getCalEvents] returns an empty list when it cannot
    set up the calendar session.) *)
Theorem syncLocalEvents_empty_prunes_all env w dir :
  disk w = Some dir ->
  (forall name, remove_fails env name = false) ->
  exists w' dir',
    syncLocalEvents env [] w = (Ok tt, w')
    /\ disk w' = Some dir'
    /\ forall name,
         dir' !! name = if HasSuffix name ".json" then None else dir !! name.
Proof.
  intros Hdisk Hrm.
  assert (Hsync : exists w', syncLocalEvents env [] w = (Ok tt, w')).
  { unfold syncLocalEvents, bind; simpl. unfold ret.
    unfold removeLocalEventsNotInCalendar, bind, os_ReadDir. rewrite Hdisk.
    apply (removeLocalEvents_loop_succeeds env [] _ Hrm w dir Hdisk).
    - apply NoDup_fst_map_to_list.
    - intros name. apply listed_files. }
  destruct Hsync as [w' Hsync].
  pose proof Hsync as Hrun. unfold syncLocalEvents, bind in Hrun. simpl in Hrun.
  unfold ret in Hrun.
  destruct (removeLocalEventsNotInCalendar_ok _ _ _ _ Hrun)
    as (dir0 & dir' & Hd0 & Hd' & Hlook).
  assert (dir0 = dir) by congruence. subst dir0.
  exists w', dir'. split_and!; try done.
  intros name. rewrite Hlook. unfold stale. simpl. by rewrite andb_true_r.
Qed.

Lemma syncLocalEvents_empty_prunes_all_witness :
  disk Sample.worldABC = Some Sample.dirABC
  /\ exists w' dir',
       syncLocalEvents Sample.env [] Sample.worldABC = (Ok tt, w')
       /\ disk w' = Some dir'
       /\ forall name,
            dir' !! name = if HasSuffix name ".json" then None else Sample.dirABC !! name.
Proof.
  assert (H : disk Sample.worldABC = Some Sample.dirABC) by reflexivity.
  split; [exact H |].
  apply (syncLocalEvents_empty_prunes_all Sample.env Sample.worldABC Sample.dirABC H).
  reflexivity.
Defined.

(** ** What a decision leaves in the store *)

Lemma logDebug_run cfg msg w :
  exists lg, logDebug cfg msg w = (Ok tt, mkWorld (disk w) (spoken w) lg).
Proof.
  unfold logDebug, logLine, ret. destruct w as [d sp lg]; simpl.
  destruct (DebugLogEnabled cfg); eexists; reflexivity.
Qed.

Lemma updateEvent_ok env r w dir :
  disk w = Some dir ->
  marshal_fails env r = false ->
  write_fails env (ID (Event r) +:+ ".json") = false ->
  updateEvent env r w =
    (Ok tt, mkWorld (Some (<[ID (Event r) +:+ ".json" := Json r]> dir))
              (spoken w) (logged w)).
Proof.
  intros Hdisk Hma Hwr.
  unfold updateEvent, json_MarshalIndent, bind, os_WriteFile, ret, setDisk.
  rewrite Hma, Hdisk, Hwr. by rewrite run_os_WriteFile_ops.
Qed.

(** With a store that accepts the update, a pass over [e] leaves
    [recordAfter] under the identifier of [e] when a guard holds, and
    leaves the store alone otherwise. *)
Lemma remindEvent_run env cfg now e w dir :
  disk w = Some dir ->
  (forall r, marshal_fails env r = false) ->
  write_fails env (ID (Event e) +:+ ".json") = false ->
  exists sp lg,
    remindEvent env cfg now e w =
      (Ok tt,
       mkWorld (if due cfg now e
                then Some (<[ID (Event e) +:+ ".json" := Json (recordAfter cfg now e)]> dir)
                else Some dir) sp lg).
Proof.
  intros Hdisk Hma Hwr.
  unfold remindEvent, due, recordAfter.
  destruct (shouldAnnounceEventStart now e);
    [| destruct (shouldCheckEventStarted now e);
       [| destruct (shouldRemindEvent cfg now e);
          [| destruct (shouldAnnounceEventEnd now e)]]]; simpl;
    unfold setStartAnnounced, setStartChecked, setReminded, setEndAnnounced;
    try unfold bind at 1;
    try (match goal with
         | |- context [logDebug ?c ?m ?w0] =>
             destruct (logDebug_run c m w0) as [lg0 ->]
         end);
    unfold bind, attempt, announceTask, ret;
    repeat (erewrite updateEvent_ok; [| simpl; try done; try apply Hma ..]);
    simpl; rewrite ?insert_insert_eq; try (by eexists _, _).
  destruct w; simpl in *; subst. by eexists _, _.
Qed.

(** X4: once the start of an event has been announced and the store has
    taken the update, the stored record has [StartAnnounced] set and
    [LastTimeReminded] at the instant of the announcement; on that record
    the start announcement is never due again, and no reminder is due
    until more than one reminder interval has passed. *)
Theorem announce_start_fires_once env cfg now e w dir :
  shouldAnnounceEventStart now e = true ->
  disk w = Some dir ->
  (forall r, marshal_fails env r = false) ->
  write_fails env (ID (Event e) +:+ ".json") = false ->
  exists w' r,
    remindEvent env cfg now e w = (Ok tt, w')
    /\ loadEvent (ID (Event e) +:+ ".json") w' = (Ok r, w')
    /\ r = mkLocalEvent (Event e) true (CheckStartAnnounced e) (EndAnnounced e) now
    /\ (forall later, shouldAnnounceEventStart later r = false)
    /\ (forall later,
          instant later <= instant now + reminderInterval cfg e ->
          shouldRemindEvent cfg later r = false).
Proof.
  intros Hguard Hdisk Hma Hwr.
  destruct (remindEvent_run env cfg now e w dir Hdisk Hma Hwr) as (sp & lg & Hrun).
  unfold due, recordAfter in Hrun. rewrite Hguard in Hrun. simpl in Hrun.
  eexists _, _. split_and!; [exact Hrun | | reflexivity | |].
  - unfold loadEvent; simpl. by rewrite lookup_insert_eq.
  - intros later. reflexivity.
  - intros later Hlater. unfold shouldRemindEvent; simpl.
    repeat (destruct (_ || _); [reflexivity |]). simpl.
    change (reminderInterval cfg {| Event := Event e; StartAnnounced := true;
              CheckStartAnnounced := CheckStartAnnounced e;
              EndAnnounced := EndAnnounced e; LastTimeReminded := now |})
      with (reminderInterval cfg e).
    unfold After, Add; simpl. destruct (Z.ltb_spec (instant now + reminderInterval cfg e)
                                          (instant later)); [lia | reflexivity].
Qed.

Lemma announce_start_fires_once_witness :
  shouldAnnounceEventStart (Sample.clock 14 5) (Sample.fresh Sample.task) = true
  /\ exists w' r,
       remindEvent Sample.env Sample.cfg (Sample.clock 14 5) (Sample.fresh Sample.task)
         Fixture.worldFresh = (Ok tt, w')
       /\ loadEvent "A.json" w' = (Ok r, w')
       /\ r = mkLocalEvent Sample.task true false false (Sample.clock 14 5)
       /\ (forall later, shouldAnnounceEventStart later r = false)
       /\ (forall later,
             instant later <= instant (Sample.clock 14 5)
                              + reminderInterval Sample.cfg (Sample.fresh Sample.task) ->
             shouldRemindEvent Sample.cfg later r = false).
Proof.
  assert (H : shouldAnnounceEventStart (Sample.clock 14 5) (Sample.fresh Sample.task)
              = true) by reflexivity.
  split; [exact H |].
  exact (announce_start_fires_once Sample.env Sample.cfg (Sample.clock 14 5)
           (Sample.fresh Sample.task) Fixture.worldFresh _ H eq_refl
           (fun _ => eq_refl) eq_refl).
Defined.

(** X5: once the start-confirmation check has been made and the store
    has taken the update, the stored record has [CheckStartAnnounced]
    set and the check is never due again on it. *)
Theorem check_started_fires_once env cfg now e w dir :
  shouldAnnounceEventStart now e = false ->
  shouldCheckEventStarted now e = true ->
  disk w = Some dir ->
  (forall r, marshal_fails env r = false) ->
  write_fails env (ID (Event e) +:+ ".json") = false ->
  exists w' r,
    remindEvent env cfg now e w = (Ok tt, w')
    /\ loadEvent (ID (Event e) +:+ ".json") w' = (Ok r, w')
    /\ r = mkLocalEvent (Event e) (StartAnnounced e) true (EndAnnounced e)
             (LastTimeReminded e)
    /\ (forall later, shouldCheckEventStarted later r = false).
Proof.
  intros Hstart Hguard Hdisk Hma Hwr.
  destruct (remindEvent_run env cfg now e w dir Hdisk Hma Hwr) as (sp & lg & Hrun).
  unfold due, recordAfter in Hrun. rewrite Hstart, Hguard in Hrun. simpl in Hrun.
  eexists _, _. split_and!; [exact Hrun | | reflexivity |].
  - unfold loadEvent; simpl. by rewrite lookup_insert_eq.
  - intros later. unfold shouldCheckEventStarted; simpl.
    by rewrite orb_true_r.
Qed.

Lemma check_started_fires_once_witness :
  shouldAnnounceEventStart (Sample.clock 14 2) Sample.started = false
  /\ shouldCheckEventStarted (Sample.clock 14 2) Sample.started = true
  /\ exists w' r,
       remindEvent Sample.env Sample.cfg (Sample.clock 14 2) Sample.started
         Sample.worldA = (Ok tt, w')
       /\ loadEvent "A.json" w' = (Ok r, w')
       /\ r = mkLocalEvent Sample.task true true false (Sample.clock 14 0)
       /\ (forall later, shouldCheckEventStarted later r = false).
Proof.
  assert (H1 : shouldAnnounceEventStart (Sample.clock 14 2) Sample.started = false)
    by reflexivity.
  assert (H2 : shouldCheckEventStarted (Sample.clock 14 2) Sample.started = true)
    by reflexivity.
  split; [exact H1 |]. split; [exact H2 |].
  exact (check_started_fires_once Sample.env Sample.cfg (Sample.clock 14 2)
           Sample.started Sample.worldA _ H1 H2 eq_refl (fun _ => eq_refl) eq_refl).
Defined.

(** X6: after a reminder for which the store has taken the update, the
    stored record has [LastTimeReminded] at the instant of the reminder,
    and no further reminder is due on it until more than one reminder
    interval has passed. *)
Theorem remind_waits_one_interval env cfg now e w dir :
  shouldAnnounceEventStart now e = false ->
  shouldCheckEventStarted now e = false ->
  shouldRemindEvent cfg now e = true ->
  disk w = Some dir ->
  (forall r, marshal_fails env r = false) ->
  write_fails env (ID (Event e) +:+ ".json") = false ->
  exists w' r,
    remindEvent env cfg now e w = (Ok tt, w')
    /\ loadEvent (ID (Event e) +:+ ".json") w' = (Ok r, w')
    /\ r = mkLocalEvent (Event e) (StartAnnounced e) (CheckStartAnnounced e)
             (EndAnnounced e) now
    /\ (forall later,
          instant later <= instant now + reminderInterval cfg e ->
          shouldRemindEvent cfg later r = false).
Proof.
  intros Hstart Hcheck Hguard Hdisk Hma Hwr.
  destruct (remindEvent_run env cfg now e w dir Hdisk Hma Hwr) as (sp & lg & Hrun).
  unfold due, recordAfter in Hrun. rewrite Hstart, Hcheck, Hguard in Hrun.
  simpl in Hrun.
  eexists _, _. split_and!; [exact Hrun | | reflexivity |].
  - unfold loadEvent; simpl. by rewrite lookup_insert_eq.
  - intros later Hlater. unfold shouldRemindEvent; simpl.
    destruct (_ || _); [reflexivity |].
    change (reminderInterval cfg {| Event := Event e;
              StartAnnounced := StartAnnounced e;
              CheckStartAnnounced := CheckStartAnnounced e;
              EndAnnounced := EndAnnounced e; LastTimeReminded := now |})
      with (reminderInterval cfg e).
    unfold After, Add; simpl.
    destruct (Z.ltb_spec (instant now + reminderInterval cfg e) (instant later));
      [lia | reflexivity].
Qed.

Lemma remind_waits_one_interval_witness :
  shouldRemindEvent Sample.cfg (Sample.clock 10 21) Sample.hour_task = true
  /\ exists w' r,
       remindEvent Sample.env Sample.cfg (Sample.clock 10 21) Sample.hour_task
         Fixture.worldH = (Ok tt, w')
       /\ loadEvent "H.json" w' = (Ok r, w')
       /\ r = mkLocalEvent (Event Sample.hour_task) true true false (Sample.clock 10 21)
       /\ (forall later,
             instant later <= instant (Sample.clock 10 21)
                              + reminderInterval Sample.cfg Sample.hour_task ->
             shouldRemindEvent Sample.cfg later r = false).
Proof.
  assert (H : shouldRemindEvent Sample.cfg (Sample.clock 10 21) Sample.hour_task = true)
    by reflexivity.
  split; [exact H |].
  exact (remind_waits_one_interval Sample.env Sample.cfg (Sample.clock 10 21)
           Sample.hour_task Fixture.worldH _ eq_refl eq_refl H eq_refl
           (fun _ => eq_refl) eq_refl).
Defined.

(** X7: once the end of an event has been announced and the store has
    taken the update, the stored record has [EndAnnounced] set; on it
    neither the end announcement nor any reminder is ever due again. *)
Theorem announce_end_fires_once env cfg now e w dir :
  shouldAnnounceEventStart now e = false ->
  shouldCheckEventStarted now e = false ->
  shouldRemindEvent cfg now e = false ->
  shouldAnnounceEventEnd now e = true ->
  disk w = Some dir ->
  (forall r, marshal_fails env r = false) ->
  write_fails env (ID (Event e) +:+ ".json") = false ->
  exists w' r,
    remindEvent env cfg now e w = (Ok tt, w')
    /\ loadEvent (ID (Event e) +:+ ".json") w' = (Ok r, w')
    /\ r = mkLocalEvent (Event e) (StartAnnounced e) (CheckStartAnnounced e) true
             (LastTimeReminded e)
    /\ (forall later, shouldAnnounceEventEnd later r = false)
    /\ (forall later, shouldRemindEvent cfg later r = false).
Proof.
  intros Hstart Hcheck Hremind Hguard Hdisk Hma Hwr.
  destruct (remindEvent_run env cfg now e w dir Hdisk Hma Hwr) as (sp & lg & Hrun).
  unfold due, recordAfter in Hrun. rewrite Hstart, Hcheck, Hremind, Hguard in Hrun.
  simpl in Hrun.
  eexists _, _. split_and!; [exact Hrun | | reflexivity | |].
  - unfold loadEvent; simpl. by rewrite lookup_insert_eq.
  - intros later. reflexivity.
  - intros later. reflexivity.
Qed.

Lemma announce_end_fires_once_witness :
  shouldRemindEvent Sample.cfg Fixture.halfToEnd Fixture.ending = false
  /\ shouldAnnounceEventEnd Fixture.halfToEnd Fixture.ending = true
  /\ exists w' r,
       remindEvent Sample.env Sample.cfg Fixture.halfToEnd Fixture.ending
         Fixture.worldEnding = (Ok tt, w')
       /\ loadEvent "A.json" w' = (Ok r, w')
       /\ r = mkLocalEvent Sample.task true true true (Sample.clock 14 25)
       /\ (forall later, shouldAnnounceEventEnd later r = false)
       /\ (forall later, shouldRemindEvent Sample.cfg later r = false).
Proof.
  assert (H1 : shouldRemindEvent Sample.cfg Fixture.halfToEnd Fixture.ending = false)
    by reflexivity.
  assert (H2 : shouldAnnounceEventEnd Fixture.halfToEnd Fixture.ending = true)
    by reflexivity.
  split; [exact H1 |]. split; [exact H2 |].
  exact (announce_end_fires_once Sample.env Sample.cfg Fixture.halfToEnd
           Fixture.ending Fixture.worldEnding _ eq_refl eq_refl H1 H2 eq_refl
           (fun _ => eq_refl) eq_refl).
Defined.

(** X8: what a pass over an event announces does not depend on what the
    store does with the update: the errors of the setters are dropped, so
    a refused or failed update never suppresses the announcement. *)
Theorem remindEvent_announces_whatever_the_store env1 env2 cfg now e w1 w2 :
  spoken w1 = spoken w2 ->
  spoken (remindEvent env1 cfg now e w1).2 = spoken (remindEvent env2 cfg now e w2).2.
Proof.
  intros Hsp.
  rewrite (proj1 (remindEvent_spoken env1 cfg now e w1)).
  rewrite (proj1 (remindEvent_spoken env2 cfg now e w2)).
  by rewrite Hsp.
Qed.

Lemma remindEvent_announces_whatever_the_store_witness :
  spoken Fixture.worldFresh = spoken (mkWorld None [] [])
  /\ spoken (remindEvent Sample.env Sample.cfg (Sample.clock 14 5)
               (Sample.fresh Sample.task) Fixture.worldFresh).2
     = spoken (remindEvent
                 (mkEnv (fun _ => None) true (fun _ => true) (fun _ => true)
                    (fun _ _ => true) (fun _ => true))
                 Sample.cfg (Sample.clock 14 5) (Sample.fresh Sample.task)
                 (mkWorld None [] [])).2.
Proof.
  split; [reflexivity |].
  apply (remindEvent_announces_whatever_the_store Sample.env
           (mkEnv (fun _ => None) true (fun _ => true) (fun _ => true)
              (fun _ _ => true) (fun _ => true))
           Sample.cfg (Sample.clock 14 5) (Sample.fresh Sample.task)
           Fixture.worldFresh (mkWorld None [] [])).
  reflexivity.
Defined.

(** ** A whole tick and the store *)

Lemma zoneFixed_fields env r :
  ID (Event (zoneFixed env r)) = ID (Event r)
  /\ StartAnnounced (zoneFixed env r) = StartAnnounced r
  /\ CheckStartAnnounced (zoneFixed env r) = CheckStartAnnounced r
  /\ EndAnnounced (zoneFixed env r) = EndAnnounced r
  /\ instant (StartTime (Event (zoneFixed env r))) = instant (StartTime (Event r))
  /\ instant (EndTime (Event (zoneFixed env r))) = instant (EndTime (Event r))
  /\ instant (LastTimeReminded (zoneFixed env r)) = instant (LastTimeReminded r).
Proof. unfold zoneFixed. destruct (String.eqb _ _); simpl; by repeat split. Qed.

Lemma updateEvent_disk env r w :
  (updateEvent env r w).2 = w
  \/ exists dir,
       disk w = Some dir
       /\ (updateEvent env r w).2 =
          mkWorld (Some (<[ID (Event r) +:+ ".json" := Json r]> dir))
            (spoken w) (logged w).
Proof.
  unfold updateEvent, json_MarshalIndent, bind, os_WriteFile, fail, ret, setDisk.
  destruct (marshal_fails env r); simpl; [by left |].
  destruct (disk w) as [dir |] eqn:Hdisk; simpl; [| by left].
  destruct (write_fails env _); simpl; [by left |].
  right. exists dir. split; [done |].
  unfold run_ops; simpl. by rewrite ?insert_insert_eq.
Qed.

Lemma bind_attempt {A B} (m : M A) (k : Result A -> M B) w :
  bind (attempt m) k w = k (m w).1 (m w).2.
Proof. unfold bind, attempt. by destruct (m w). Qed.

Lemma bind_logDebug {B} cfg msg (k : unit -> M B) w :
  exists lg, bind (logDebug cfg msg) k w = k tt (mkWorld (disk w) (spoken w) lg).
Proof.
  destruct (logDebug_run cfg msg w) as [lg Hlg]. exists lg.
  unfold bind. by rewrite Hlg.
Qed.

(** A pass over [e] leaves the store alone or replaces the file named
    after [e] by a record of the same event in which no flag of [e] is
    cleared. *)
Lemma remindEvent_disk env cfg now e w :
  disk (remindEvent env cfg now e w).2 = disk w
  \/ exists dir r,
       disk w = Some dir
       /\ disk (remindEvent env cfg now e w).2 =
          Some (<[ID (Event e) +:+ ".json" := Json r]> dir)
       /\ Event r = Event e
       /\ flagsKept e r.
Proof.
  remember (remindEvent env cfg now e w) as out eqn:Hout.
  revert Hout. unfold remindEvent.
  destruct (shouldAnnounceEventStart now e);
    [| destruct (shouldCheckEventStarted now e);
       [| destruct (shouldRemindEvent cfg now e);
          [| destruct (shouldAnnounceEventEnd now e)]]];
    unfold setStartAnnounced, setStartChecked, setReminded, setEndAnnounced;
    try (match goal with
         | |- context [bind (logDebug ?c ?m) ?k ?w0] =>
             destruct (bind_logDebug c m k w0) as [lg0 ->]
         end);
    rewrite ?bind_attempt; unfold announceTask, ret;
    cbn [Event StartAnnounced CheckStartAnnounced EndAnnounced LastTimeReminded];
    intros ->; cbn [snd disk]; [| | | | by left].
  - set (e1 := mkLocalEvent (Event e) true (CheckStartAnnounced e) (EndAnnounced e)
                 (LastTimeReminded e)).
    set (e2 := mkLocalEvent (Event e) true (CheckStartAnnounced e) (EndAnnounced e) now).
    set (w0 := mkWorld (disk w) (spoken w) lg0).
    destruct (updateEvent_disk env e1 w0) as [-> | (dir1 & Hd1 & ->)];
      destruct (updateEvent_disk env e2 w0) as [H2 | (dir2 & Hd2 & H2)];
      try (destruct (updateEvent_disk env e2
                       (mkWorld (Some (<[ID (Event e1) +:+ ".json" := Json e1]> dir1))
                          (spoken w0) (logged w0))) as [H3 | (dir3 & Hd3 & H3)]);
      try rewrite H2; try rewrite H3; simpl in *.
    all: try (by left).
    all: try (right; exists dir2, e2; by repeat split).
    all: try (right; exists dir1, e1; by repeat split).
    all: right; exists dir1, e2; simplify_eq; rewrite insert_insert_eq; by repeat split.
  - set (e1 := mkLocalEvent (Event e) (StartAnnounced e) true (EndAnnounced e)
                 (LastTimeReminded e)).
    set (w0 := mkWorld (disk w) (spoken w) lg0).
    destruct (updateEvent_disk env e1 w0) as [-> | (dir1 & Hd1 & ->)]; simpl in *;
      [by left |].
    right. exists dir1, e1. by repeat split.
  - set (e1 := mkLocalEvent (Event e) (StartAnnounced e) (CheckStartAnnounced e)
                 (EndAnnounced e) now).
    set (w0 := mkWorld (disk w) (spoken w) lg0).
    destruct (updateEvent_disk env e1 w0) as [-> | (dir1 & Hd1 & ->)]; simpl in *;
      [by left |].
    right. exists dir1, e1. by repeat split.
  - set (e1 := mkLocalEvent (Event e) (StartAnnounced e) (CheckStartAnnounced e) true
                 (LastTimeReminded e)).
    set (w0 := mkWorld (disk w) (spoken w) lg0).
    destruct (updateEvent_disk env e1 w0) as [-> | (dir1 & Hd1 & ->)]; simpl in *;
      [by left |].
    right. exists dir1, e1. by repeat split.
Qed.

Lemma loadTodayEvents_loop_world env now files : forall events w r w2,
  loadTodayEvents_loop env now files events w = (r, w2) ->
  disk w2 = disk w /\ spoken w2 = spoken w.
Proof.
  induction files as [| file rest IH]; intros events w r w2; simpl.
  - unfold ret. by intros [= <- <-].
  - unfold bind at 1, attempt.
    pose proof (loadEvent_reads file w) as Hw.
    destruct (loadEvent file w) as [[e | err] w1]; simpl in Hw; subst w1;
      [| unfold fail; by intros [= <- <-]].
    destruct (negb (scheduledForToday now e) || After now (EndTime (Event e)));
      [apply IH |].
    destruct (negb (String.eqb (TimeZone (Event e)) "")); [| apply IH].
    unfold bind, logLine, ret.
    destruct (LoadLocation env (TimeZone (Event e))) as [loc |]; simpl;
      destruct (After now _); intros H; by apply IH in H.
Qed.

Lemma loadTodayEvents_loop_sound env now dir files : forall events w events' w',
  disk w = Some dir ->
  loadTodayEvents_loop env now files events w = (Ok events', w') ->
  disk w' = Some dir
  /\ forall e, e ∈ events' ->
       e ∈ events
       \/ exists name r0,
            name ∈ files /\ dir !! name = Some (Json r0)
            /\ inWorkingSet now r0 = true /\ e = zoneFixed env r0.
Proof.
  induction files as [| file rest IH]; intros events w events' w' Hdisk.
  - simpl. unfold ret. intros [= <- <-]. split; [done |]. by left.
  - destruct (dir !! file) as [[r0 | bytes] |] eqn:Hfile.
    + destruct (loadTodayEvents_loop_step env now file rest events w dir r0 Hdisk Hfile)
        as (w1 & Hd1 & _ & ->).
      intros Hloop.
      destruct (IH _ _ _ _ (eq_trans Hd1 Hdisk) Hloop) as [Hd' Hfrom].
      split; [done |]. intros e He.
      destruct (Hfrom e He) as [Hin | (name & r & Hin & Hr & Hws & ->)].
      * apply elem_of_app in Hin as [Hin | Hin]; [by left |].
        right. exists file, r0.
        destruct (inWorkingSet now r0) eqn:Hws.
        -- apply list_elem_of_singleton in Hin. split_and!; try done. by left.
        -- by apply elem_of_nil in Hin.
      * right. exists name, r. split_and!; try done. by right.
    + simpl. unfold bind, attempt, loadEvent, fail. rewrite Hdisk, Hfile. discriminate.
    + simpl. unfold bind, attempt, loadEvent, fail. rewrite Hdisk, Hfile. discriminate.
Qed.

Lemma remindEvents_loop_ticked env cfg now dir0 events : forall w dir,
  disk w = Some dir ->
  consistent dir0 ->
  tickedFrom env dir0 dir ->
  (forall e, e ∈ events ->
     exists r0, dir0 !! (ID (Event e) +:+ ".json") = Some (Json r0)
                /\ e = zoneFixed env r0) ->
  exists w' dir',
    remindEvents_loop env cfg now events w = (Ok tt, w')
    /\ disk w' = Some dir'
    /\ tickedFrom env dir0 dir'.
Proof.
  induction events as [| e rest IH]; intros w dir Hdisk Hcons Hticked Hall.
  - exists w, dir. by split_and!.
  - simpl. unfold bind.
    destruct (remindEvent_spoken env cfg now e w) as [_ [w1 Hw1]].
    pose proof (remindEvent_disk env cfg now e w) as Hd. rewrite Hw1 in *. simpl in Hd.
    assert (Hrest : forall x, x ∈ rest ->
              exists r0, dir0 !! (ID (Event x) +:+ ".json") = Some (Json r0)
                         /\ x = zoneFixed env r0).
    { intros x Hx. apply Hall. by right. }
    destruct Hd as [Hsame | (dir1 & r & Hd1 & Hdw1 & Hev & Hkept)].
    + apply (IH w1 dir); try done. congruence.
    + assert (dir1 = dir) by congruence. subst dir1.
      apply (IH w1 (<[ID (Event e) +:+ ".json" := Json r]> dir)); try done.
      intros name. destruct (decide (name = ID (Event e) +:+ ".json")) as [-> | Hne].
      * right. destruct (Hall e) as (r0 & Hr0 & He); [by left |].
        exists r0, r. rewrite lookup_insert_eq. split_and!; try done.
        -- by rewrite Hev, He.
        -- destruct Hkept as (K1 & K2 & K3).
           destruct (zoneFixed_fields env r0) as (_ & F1 & F2 & F3 & _).
           rewrite He in K1, K2, K3. rewrite F1 in K1. rewrite F2 in K2.
           rewrite F3 in K3. by split_and!.
      * rewrite lookup_insert_ne by done. apply Hticked.
Qed.



(** ** What a tick announces *)

Lemma remindEvents_loop_announces env cfg now events : forall w,
  spoken (remindEvents_loop env cfg now events w).2 =
  spoken w ++ omap (announcement cfg now) events.
Proof.
  induction events as [| e rest IH]; intros w; simpl.
  - by rewrite app_nil_r.
  - destruct (remindEvent_spoken env cfg now e w) as [Hds [w1 Hw1]].
    unfold bind. rewrite Hw1 in *. simpl in Hds.
    rewrite IH, Hds. unfold announcement.
    repeat case_match; simpl; by rewrite <- app_assoc.
Qed.

Lemma loadTodayEvents_loop_list env now dir files : forall events w events' w',
  disk w = Some dir ->
  loadTodayEvents_loop env now files events w = (Ok events', w') ->
  events' = events ++ omap (picked env now dir) files.
Proof.
  induction files as [| file rest IH]; intros events w events' w' Hdisk.
  - simpl. unfold ret. intros [= <- <-]. by rewrite app_nil_r.
  - destruct (dir !! file) as [[r0 | bytes] |] eqn:Hfile.
    + destruct (loadTodayEvents_loop_step env now file rest events w dir r0 Hdisk Hfile)
        as (w1 & Hd1 & _ & ->).
      intros Hloop.
      rewrite (IH _ _ _ _ (eq_trans Hd1 Hdisk) Hloop).
      simpl. unfold picked at 2. rewrite Hfile.
      destruct (inWorkingSet now r0); simpl.
      * by rewrite <- app_assoc.
      * by rewrite app_nil_r.
    + simpl. unfold bind, attempt, loadEvent, fail. rewrite Hdisk, Hfile. discriminate.
    + simpl. unfold bind, attempt, loadEvent, fail. rewrite Hdisk, Hfile. discriminate.
Qed.

(** The announcements of a tick are those of the working set, taken file
    by file in the order of the directory listing; there is none when
    the load fails. *)
Lemma remindCurrentEvents_spoken env cfg now w dir :
  disk w = Some dir ->
  exists events,
    spoken (remindCurrentEvents env cfg now w).2 =
      spoken w ++ omap (announcement cfg now) events
    /\ (events = [] \/ events = omap (picked env now dir) (map_to_list dir).*1).
Proof.
  intros Hdisk. unfold remindCurrentEvents. rewrite bind_attempt.
  destruct (loadTodayEvents env now w) as [[events | err] w0] eqn:Hload; simpl;
    unfold loadTodayEvents, bind, os_ReadDir in Hload; rewrite Hdisk in Hload.
  - exists events. unfold bind at 1, ret.
    rewrite remindEvents_loop_announces.
    destruct (loadTodayEvents_loop_world _ _ _ _ _ _ _ Hload) as [_ ->].
    split; [done |]. right.
    by rewrite (loadTodayEvents_loop_list _ _ _ _ _ _ _ _ Hdisk Hload).
  - exists []. unfold bind, logLine, ret. simpl.
    destruct (loadTodayEvents_loop_world _ _ _ _ _ _ _ Hload) as [_ ->].
    split; [by rewrite app_nil_r | by left].
Qed.

Lemma picked_from env now dir name e :
  picked env now dir name = Some e ->
  exists r0, dir !! name = Some (Json r0)
             /\ inWorkingSet now r0 = true /\ e = zoneFixed env r0.
Proof.
  unfold picked. destruct (dir !! name) as [[r0 | bytes] |]; try discriminate.
  destruct (inWorkingSet now r0) eqn:Hws; [| discriminate].
  intros [= <-]. by exists r0.
Qed.

Lemma announcement_ID cfg now e d id :
  announcement cfg now e = Some (d, id) -> id = ID (Event e).
Proof. unfold announcement. repeat case_match; congruence. Qed.



Lemma picked_NoDup env now dir files :
  consistent dir ->
  NoDup files ->
  NoDup ((fun e => ID (Event e)) <$> omap (picked env now dir) files).
Proof.
  intros Hcons. induction 1 as [| file rest Hnotin Hnodup IH]; simpl.
  - constructor.
  - destruct (picked env now dir file) as [e |] eqn:Hpick; [| done].
    simpl. constructor; [| done].
    intros Hin. apply Hnotin.
    apply list_elem_of_fmap in Hin as (e' & Hid & Hin).
    apply list_elem_of_omap in Hin as (name & Hname & Hpick').
    apply picked_from in Hpick as (r0 & Hr0 & _ & ->).
    apply picked_from in Hpick' as (r1 & Hr1 & _ & ->).
    destruct (zoneFixed_fields env r0) as (Hid0 & _).
    destruct (zoneFixed_fields env r1) as (Hid1 & _).
    assert (file = name) as ->; [| done].
    rewrite (Hcons file r0 Hr0), (Hcons name r1 Hr1).
    simpl in Hid. congruence.
Qed.

Lemma announcement_NoDup cfg now events :
  NoDup ((fun e => ID (Event e)) <$> events) ->
  NoDup ((omap (announcement cfg now) events).*2).
Proof.
  induction events as [| e rest IH]; simpl; intros Hnodup.
  - constructor.
  - apply NoDup_cons in Hnodup as [Hnotin Hnodup].
    destruct (announcement cfg now e) as [[d id] |] eqn:Hann; simpl; [| by apply IH].
    constructor; [| by apply IH].
    intros Hin. apply Hnotin.
    apply list_elem_of_fmap in Hin as ([d' id'] & Hid & Hin). simpl in Hid. subst id'.
    apply list_elem_of_omap in Hin as (e' & He' & Hann').
    apply announcement_ID in Hann, Hann'.
    apply list_elem_of_fmap. exists e'. split; [congruence | done].
Qed.

(** X11: over a store in which every readable record lies in the file
    named after its identifier, a tick makes at most one announcement per
    event identifier. *)
Theorem remindCurrentEvents_once_per_event env cfg now w dir :
  disk w = Some dir ->
  consistent dir ->
  exists ds,
    spoken (remindCurrentEvents env cfg now w).2 = spoken w ++ ds
    /\ NoDup ds.*2.
Proof.
  intros Hdisk Hcons.
  destruct (remindCurrentEvents_spoken env cfg now w dir Hdisk)
    as (events & Hsp & Hev).
  eexists. split; [exact Hsp |].
  apply announcement_NoDup.
  destruct Hev as [-> | ->]; [constructor |].
  apply picked_NoDup; [done |]. apply NoDup_fst_map_to_list.
Qed.

Lemma remindCurrentEvents_once_per_event_witness :
  disk Sample.worldA = Some Sample.dirA
  /\ consistent Sample.dirA
  /\ exists ds,
       spoken (remindCurrentEvents Sample.env Sample.cfg (Sample.clock 14 2)
                 Sample.worldA).2 = spoken Sample.worldA ++ ds
       /\ NoDup ds.*2.
Proof.
  assert (H1 : disk Sample.worldA = Some Sample.dirA) by reflexivity.
  assert (H2 : consistent Sample.dirA).
  { intros name e H. unfold Sample.dirA in H.
    apply lookup_singleton_Some in H as [<- [= <-]]. reflexivity. }
  split; [exact H1 |]. split; [exact H2 |].
  exact (remindCurrentEvents_once_per_event Sample.env Sample.cfg (Sample.clock 14 2)
           Sample.worldA Sample.dirA H1 H2).
Defined.

(** ** Reconciliation and the next load *)

(** The store after a successful reconciliation: every file named
    [*.json] is a readable record under the name of its identifier, and
    the files of other names are as before. *)
Lemma syncLocalEvents_store env events w w' :
  syncLocalEvents env events w = (Ok tt, w') ->
  exists dir',
    disk w' = Some dir'
    /\ (forall name c,
          dir' !! name = Some c -> HasSuffix name ".json" = true ->
          exists e, c = Json e /\ name = ID (Event e) +:+ ".json")
    /\ (forall name, HasSuffix name ".json" = false ->
          dir' !! name = default ∅ (disk w) !! name).
Proof.
  unfold syncLocalEvents, bind.
  destruct (saveEvents_loop env events w) as [[[] | err] w1] eqn:Hsave;
    [| discriminate].
  intros Hremove.
  destruct (removeLocalEventsNotInCalendar_ok _ _ _ _ Hremove)
    as (dir1 & dir' & Hd1 & Hd' & Hlook).
  destruct (saveEvents_loop_ok _ _ _ _ Hsave) as (_ & _ & Hsaved & Hother).
  rewrite Hd1 in Hsaved, Hother. simpl in Hsaved, Hother.
  exists dir'. split_and!; [done | |].
  - intros name c Hc Hsuf.
    pose proof (HasSuffix_TrimSuffix name ".json" Hsuf) as Hname.
    set (id := TrimSuffix name ".json") in *.
    rewrite Hlook, Hname, stale_json_name in Hc.
    case_bool_decide as Hin; simpl in Hc; [| discriminate].
    destruct (Hsaved id Hin) as (e & He & Hid).
    exists e. split; congruence.
  - intros name Hsuf. rewrite Hlook. unfold stale. rewrite Hsuf. simpl.
    apply Hother. intros id _ ->. by rewrite HasSuffix_append in Hsuf.
Qed.



(** X13: reconciliation looks at files named [*.json] only, the load at
    every file.  An unreadable file of another name survives every
    successful [syncLocalEvents], and the load that follows fails on an
    unreadable file, so the tick announces nothing. *)
Theorem stray_file_blocks_every_load env cfg events now w w' dir name bytes :
  disk w = Some dir ->
  dir !! name = Some (Corrupt bytes) ->
  HasSuffix name ".json" = false ->
  syncLocalEvents env events w = (Ok tt, w') ->
  exists dir' bad w1,
    disk w' = Some dir'
    /\ dir' !! name = Some (Corrupt bytes)
    /\ loadTodayEvents env now w' = (Err (ELoadEvent bad (EUnmarshal bad)), w1)
    /\ spoken (remindCurrentEvents env cfg now w').2 = spoken w'.
Proof.
  intros Hdisk Hbad Hsuf Hsync.
  destruct (syncLocalEvents_store _ _ _ _ Hsync) as (dir' & Hd' & _ & Hrest).
  assert (Hbad' : dir' !! name = Some (Corrupt bytes)).
  { rewrite (Hrest name Hsuf), Hdisk. done. }
  destruct (loadTodayEvents_loop_fails env now (map_to_list dir').*1 [] w' dir' Hd')
    as (bad & w1 & Hd1 & Hs1 & Hloop).
  { intros name'. apply listed_files. }
  { exists name, bytes. split; [| done]. apply listed_files. by exists (Corrupt bytes). }
  assert (Hload : loadTodayEvents env now w' =
                  (Err (ELoadEvent bad (EUnmarshal bad)), w1)).
  { unfold loadTodayEvents, bind, os_ReadDir. by rewrite Hd'. }
  exists dir', bad, w1. split_and!; try done.
  unfold remindCurrentEvents. rewrite bind_attempt, Hload. simpl.
  unfold bind, logLine, ret. simpl. done.
Qed.

Lemma stray_file_blocks_every_load_witness :
  disk Fixture.worldStray = Some Fixture.dirStray
  /\ Fixture.dirStray !! "notes.txt" = Some (Corrupt "call the plumber")
  /\ HasSuffix "notes.txt" ".json" = false
  /\ exists dir' bad w1,
       disk (syncLocalEvents Sample.env [Sample.task] Fixture.worldStray).2 = Some dir'
       /\ dir' !! "notes.txt" = Some (Corrupt "call the plumber")
       /\ loadTodayEvents Sample.env (Sample.clock 14 5)
            (syncLocalEvents Sample.env [Sample.task] Fixture.worldStray).2
          = (Err (ELoadEvent bad (EUnmarshal bad)), w1)
       /\ spoken (remindCurrentEvents Sample.env Sample.cfg (Sample.clock 14 5)
                    (syncLocalEvents Sample.env [Sample.task] Fixture.worldStray).2).2
          = spoken (syncLocalEvents Sample.env [Sample.task] Fixture.worldStray).2.
Proof.
  assert (H1 : disk Fixture.worldStray = Some Fixture.dirStray) by reflexivity.
  assert (H2 : Fixture.dirStray !! "notes.txt" = Some (Corrupt "call the plumber"))
    by reflexivity.
  assert (H3 : HasSuffix "notes.txt" ".json" = false) by reflexivity.
  assert (H4 : syncLocalEvents Sample.env [Sample.task] Fixture.worldStray =
               (Ok tt, (syncLocalEvents Sample.env [Sample.task] Fixture.worldStray).2))
    by (vm_compute; reflexivity).
  split; [exact H1 |]. split; [exact H2 |]. split; [exact H3 |].
  exact (stray_file_blocks_every_load Sample.env Sample.cfg [Sample.task]
           (Sample.clock 14 5) Fixture.worldStray _ Fixture.dirStray "notes.txt"
           "call the plumber" H1 H2 H3 H4).
Defined.

(** ** [writeFileAtomically] as its callers see it *)

(** X14: when [writeFileAtomically] returns without error, the target
    holds the new content, the temporary file is gone, every other file
    is as before, and a crash at any point of the write would have left
    the target either as it was or complete. *)
Theorem writeFileAtomically_replaces env path data rnd w w' dir :
  disk w = Some dir ->
  writeFileAtomically env path data rnd w = (Ok tt, w') ->
  exists dir',
    disk w' = Some dir'
    /\ dir' !! path = Some data
    /\ dir' !! tempPathOf path rnd = None
    /\ (forall name, name <> path -> name <> tempPathOf path rnd ->
          dir' !! name = dir !! name)
    /\ (forall s, s ∈ crash_states (writeFileAtomically_ops path data rnd) dir ->
          s !! path = dir !! path \/ s !! path = Some data).
Proof.
  intros Hdisk Hrun. destruct w as [d sp lg]. simpl in Hdisk. subst d.
  apply writeFileAtomically_runs_ops in Hrun. subst w'.
  pose proof (tempPathOf_fresh path rnd) as Hfresh.
  assert (Hfinal : forall name,
            run_ops (writeFileAtomically_ops path data rnd) dir !! name =
            if decide (name = path) then Some data
            else if decide (name = tempPathOf path rnd) then None
            else dir !! name).
  { intros name. unfold run_ops, writeFileAtomically_ops. simpl.
    rewrite !lookup_insert_eq. simpl.
    destruct (decide (name = path)) as [-> | Hne]; [by rewrite lookup_insert_eq |].
    rewrite lookup_insert_ne by done.
    destruct (decide (name = tempPathOf path rnd)) as [-> | Hne'].
    - by rewrite lookup_delete_eq.
    - by rewrite lookup_delete_ne, !lookup_insert_ne. }
  eexists. split_and!; [reflexivity | | | |].
  - rewrite Hfinal. by rewrite decide_True.
  - rewrite Hfinal. rewrite decide_False by done. by rewrite decide_True.
  - intros name H1 H2. rewrite Hfinal. by rewrite !decide_False.
  - intros s Hs. destruct (writeFileAtomically_atomic path data rnd dir s Hs) as [H | H];
      [by left | right].
    rewrite H, Hfinal. by rewrite decide_True.
Qed.

Lemma writeFileAtomically_replaces_witness :
  disk Sample.worldA = Some Sample.dirA
  /\ writeFileAtomically Sample.env "A.json" (Json (Sample.fresh Sample.task)) 7
       Sample.worldA
     = (Ok tt, (writeFileAtomically Sample.env "A.json"
                  (Json (Sample.fresh Sample.task)) 7 Sample.worldA).2)
  /\ exists dir',
       disk (writeFileAtomically Sample.env "A.json"
               (Json (Sample.fresh Sample.task)) 7 Sample.worldA).2 = Some dir'
       /\ dir' !! "A.json" = Some (Json (Sample.fresh Sample.task))
       /\ dir' !! tempPathOf "A.json" 7 = None
       /\ (forall name, name <> "A.json" -> name <> tempPathOf "A.json" 7 ->
             dir' !! name = Sample.dirA !! name)
       /\ (forall s,
             s ∈ crash_states
                   (writeFileAtomically_ops "A.json" (Json (Sample.fresh Sample.task)) 7)
                   Sample.dirA ->
             s !! "A.json" = Sample.dirA !! "A.json"
             \/ s !! "A.json" = Some (Json (Sample.fresh Sample.task))).
Proof.
  assert (H1 : disk Sample.worldA = Some Sample.dirA) by reflexivity.
  assert (H2 : writeFileAtomically Sample.env "A.json"
                 (Json (Sample.fresh Sample.task)) 7 Sample.worldA
               = (Ok tt, (writeFileAtomically Sample.env "A.json"
                            (Json (Sample.fresh Sample.task)) 7 Sample.worldA).2))
    by (vm_compute; reflexivity).
  split; [exact H1 |]. split; [exact H2 |].
  exact (writeFileAtomically_replaces Sample.env "A.json"
           (Json (Sample.fresh Sample.task)) 7 Sample.worldA _ Sample.dirA H1 H2).
Defined.

(** X15: when [writeFileAtomically] returns an error, every file but the
    temporary one is as before, the target included; and when it was the
    rename that failed, the temporary file is removed again unless the
    removal is refused as well. *)
Theorem writeFileAtomically_error_keeps_target env path data rnd w w' err dir :
  disk w = Some dir ->
  writeFileAtomically env path data rnd w = (Err err, w') ->
  exists dir',
    disk w' = Some dir'
    /\ dir' !! path = dir !! path
    /\ (forall name, name <> tempPathOf path rnd -> dir' !! name = dir !! name)
    /\ (write_fails env (tempPathOf path rnd) = false ->
        remove_fails env (tempPathOf path rnd) = false ->
        err = ERename (tempPathOf path rnd) path
        /\ dir' !! tempPathOf path rnd = None).
Proof.
  intros Hdisk. destruct w as [d sp lg]. simpl in Hdisk. subst d.
  pose proof (tempPathOf_fresh path rnd) as Hfresh.
  unfold writeFileAtomically, bind, attempt, os_WriteFile, os_Rename, os_Remove,
    fail, ret, setDisk; simpl.
  destruct (write_fails env (tempPathOf path rnd)) eqn:Hwr; simpl.
  { intros [= <- <-]. exists dir. by split_and!. }
  rewrite !insert_insert_eq, !lookup_insert_eq.
  destruct (rename_fails env (tempPathOf path rnd) path); simpl; [| discriminate].
  rewrite ?lookup_insert_eq.
  destruct (remove_fails env (tempPathOf path rnd)) eqn:Hrm; simpl;
    intros [= <- <-]; simpl.
  - eexists. split_and!; [reflexivity | | | done].
    + by rewrite lookup_insert_ne.
    + intros name Hne. by rewrite lookup_insert_ne.
  - eexists. split_and!; [reflexivity | | |].
    + unfold run_ops; simpl. by rewrite lookup_delete_ne, lookup_insert_ne.
    + intros name Hne. unfold run_ops; simpl.
      by rewrite lookup_delete_ne, lookup_insert_ne.
    + intros _ _. split; [done |]. unfold run_ops; simpl. by rewrite lookup_delete_eq.
Qed.

Lemma writeFileAtomically_error_keeps_target_witness :
  disk Sample.worldA = Some Sample.dirA
  /\ exists dir',
       disk (writeFileAtomically Fixture.envNoRename "A.json"
               (Json (Sample.fresh Sample.task)) 7 Sample.worldA).2 = Some dir'
       /\ dir' !! "A.json" = Sample.dirA !! "A.json"
       /\ (forall name, name <> tempPathOf "A.json" 7 ->
             dir' !! name = Sample.dirA !! name)
       /\ (write_fails Fixture.envNoRename (tempPathOf "A.json" 7) = false ->
           remove_fails Fixture.envNoRename (tempPathOf "A.json" 7) = false ->
           ERename (tempPathOf "A.json" 7) "A.json"
             = ERename (tempPathOf "A.json" 7) "A.json"
           /\ dir' !! tempPathOf "A.json" 7 = None).
Proof.
  assert (H1 : disk Sample.worldA = Some Sample.dirA) by reflexivity.
  assert (H2 : writeFileAtomically Fixture.envNoRename "A.json"
                 (Json (Sample.fresh Sample.task)) 7 Sample.worldA
               = (Err (ERename (tempPathOf "A.json" 7) "A.json"),
                  (writeFileAtomically Fixture.envNoRename "A.json"
                     (Json (Sample.fresh Sample.task)) 7 Sample.worldA).2))
    by (vm_compute; reflexivity).
  split; [exact H1 |].
  exact (writeFileAtomically_error_keeps_target Fixture.envNoRename "A.json"
           (Json (Sample.fresh Sample.task)) 7 Sample.worldA _ _ Sample.dirA H1 H2).
Defined.

(** ** The rotating log writer *)

Lemma old_path_fresh (path : string) : path +:+ ".old" <> path.
Proof.
  intros H. apply (f_equal String.length) in H.
  rewrite length_append in H. simpl in H. lia.
Qed.

(** X16: [NewRotatingWriter] never rotates.  Its call of
    [rotateIfNeeded] finds no open file and returns at once, so whatever
    the size of an existing log, no file is renamed, removed or changed:
    the directory is as before, or has one more file, the empty log. *)
Theorem NewRotatingWriter_never_rotates ft path maxSize
    (fs : gmap string string) :
  (Logging.NewRotatingWriter ft path maxSize fs).2 = fs
  \/ (fs !! path = None
      /\ (Logging.NewRotatingWriter ft path maxSize fs).2 = <[path := ""]> fs).
Proof.
  unfold Logging.NewRotatingWriter, Logging.rotateIfNeeded, Logging.os_OpenFile. simpl.
  destruct (Logging.open_fails ft); simpl; [by left |].
  destruct (fs !! path) eqn:Hpath; [by left | by right].
Qed.

(** X17: a [Write] that the file system does not refuse loses nothing
    and keeps the log bounded.  The message ends the log; what the log
    held before is still its beginning or, when the log had reached
    [maxSize], has become the [.old] file; and the log is shorter than
    [maxSize] plus the length of the message. *)
Theorem Write_keeps_log_bounded p rw (fs : gmap string string) c :
  Logging.file rw = Some (Logging.mkFile false) ->
  fs !! Logging.filePath rw = Some c ->
  0 < Logging.maxSize rw ->
  exists fs',
    Logging.Write Logging.noFaults p rw fs =
      ((Z.of_nat (String.length p), None), rw, fs')
    /\ ((fs' !! Logging.filePath rw = Some (c +:+ p)
         /\ fs' !! (Logging.filePath rw +:+ ".old")
            = fs !! (Logging.filePath rw +:+ ".old"))
        \/ (Logging.maxSize rw <= Z.of_nat (String.length c)
            /\ fs' !! Logging.filePath rw = Some p
            /\ fs' !! (Logging.filePath rw +:+ ".old") = Some c))
    /\ (forall name, name <> Logging.filePath rw ->
          name <> Logging.filePath rw +:+ ".old" -> fs' !! name = fs !! name)
    /\ Logging.fileSize fs' (Logging.filePath rw)
       < Logging.maxSize rw + Z.of_nat (String.length p).
Proof.
  intros Hfile Hlog Hmax. destruct rw as [path f maxSize]. simpl in *. subst f.
  pose proof (old_path_fresh path) as Hfresh.
  unfold Logging.Write, Logging.rotateIfNeeded, Logging.fileSize; simpl.
  rewrite Hlog; simpl.
  destruct (Z.ltb_spec (Z.of_nat (String.length c)) maxSize) as [Hsmall | Hbig]; simpl.
  - rewrite Hlog; simpl. eexists. split_and!; [reflexivity | left | |].
    + split; [by rewrite lookup_insert_eq | by rewrite lookup_insert_ne].
    + intros name Hne _. by rewrite lookup_insert_ne.
    + rewrite lookup_insert_eq; simpl. rewrite length_append. lia.
  - destruct (fs !! (path +:+ ".old")) as [o |] eqn:Hold; simpl.
    + rewrite lookup_delete_ne, Hlog by done. unfold Logging.os_OpenFile; simpl.
      rewrite lookup_insert_ne, lookup_delete_eq by done. simpl.
      rewrite lookup_insert_eq; simpl.
      eexists. split_and!; [reflexivity | right | |].
      * split_and!; [done | by rewrite lookup_insert_eq |].
        rewrite lookup_insert_ne, lookup_insert_ne, lookup_insert_eq by done. done.
      * intros name H1 H2. by rewrite !lookup_insert_ne, !lookup_delete_ne.
      * rewrite lookup_insert_eq; simpl. rewrite length_append. simpl. lia.
    + rewrite Hlog. unfold Logging.os_OpenFile; simpl.
      rewrite lookup_insert_ne, lookup_delete_eq by done. simpl.
      rewrite lookup_insert_eq; simpl.
      eexists. split_and!; [reflexivity | right | |].
      * split_and!; [done | by rewrite lookup_insert_eq |].
        rewrite lookup_insert_ne, lookup_insert_ne, lookup_insert_eq by done. done.
      * intros name H1 H2. by rewrite !lookup_insert_ne, !lookup_delete_ne.
      * rewrite lookup_insert_eq; simpl. rewrite length_append. simpl. lia.
Qed.

Lemma Write_keeps_log_bounded_witness :
  Logging.file Fixture.logWriter = Some (Logging.mkFile false)
  /\ Fixture.logDir !! Logging.filePath Fixture.logWriter = Some "0123456789"
  /\ 0 < Logging.maxSize Fixture.logWriter
  /\ exists fs',
       Logging.Write Logging.noFaults "abc" Fixture.logWriter Fixture.logDir =
         ((3, None), Fixture.logWriter, fs')
       /\ ((fs' !! "app.log" = Some "0123456789abc"
            /\ fs' !! "app.log.old" = Fixture.logDir !! "app.log.old")
           \/ (Logging.maxSize Fixture.logWriter <= 10
               /\ fs' !! "app.log" = Some "abc"
               /\ fs' !! "app.log.old" = Some "0123456789"))
       /\ (forall name, name <> "app.log" -> name <> "app.log.old" ->
             fs' !! name = Fixture.logDir !! name)
       /\ Logging.fileSize fs' "app.log" < Logging.maxSize Fixture.logWriter + 3.
Proof.
  assert (H1 : Logging.file Fixture.logWriter = Some (Logging.mkFile false))
    by reflexivity.
  assert (H2 : Fixture.logDir !! Logging.filePath Fixture.logWriter = Some "0123456789")
    by reflexivity.
  assert (H3 : 0 < Logging.maxSize Fixture.logWriter) by reflexivity.
  split; [exact H1 |]. split; [exact H2 |]. split; [exact H3 |].
  exact (Write_keeps_log_bounded "abc" Fixture.logWriter Fixture.logDir "0123456789"
           H1 H2 H3).
Defined.

(** X18: a rotation that fails after the log was closed silences the
    writer.  When the log has reached [maxSize] and the close, the
    removal of the old log, the rename or the reopening is refused,
    [Write] returns an error and writes nothing (every file left holds
    what some file held before), and so does every later [Write],
    whatever the file system then allows: the fallback write on the
    current file meets a closed file. *)
Theorem failed_rotation_silences_writer ft p rw (fs : gmap string string) c :
  Logging.file rw = Some (Logging.mkFile false) ->
  fs !! Logging.filePath rw = Some c ->
  Logging.maxSize rw <= Z.of_nat (String.length c) ->
  Logging.stat_fails ft = false ->
  Logging.close_fails ft = true
  \/ (Logging.stat_old_fails ft = false
      /\ is_Some (fs !! (Logging.filePath rw +:+ ".old"))
      /\ Logging.remove_fails ft = true)
  \/ Logging.rename_fails ft = true
  \/ Logging.open_fails ft = true ->
  exists rw' fs',
    Logging.Write ft p rw fs = ((0, Some Logging.EClosed), rw', fs')
    /\ (forall name x, fs' !! name = Some x -> exists name', fs !! name' = Some x)
    /\ forall ft' p' (fs'' : gmap string string),
         Logging.Write ft' p' rw' fs'' = ((0, Some Logging.EClosed), rw', fs'').
Proof.
  intros Hfile Hlog Hbig Hstat Hfail. destruct rw as [path f maxSize]. simpl in *.
  subst f. pose proof (old_path_fresh path) as Hfresh.
  unfold Logging.Write, Logging.rotateIfNeeded, Logging.fileSize; simpl.
  rewrite Hlog, Hstat; simpl.
  destruct (Z.ltb_spec (Z.of_nat (String.length c)) maxSize) as [Hsmall | _];
    [lia |]; simpl.
  destruct (Logging.close_fails ft) eqn:Hclose; simpl.
  { eexists _, _. split_and!; [reflexivity | by eauto |]. intros; reflexivity. }
  destruct (negb (Logging.stat_old_fails ft)
            && match fs !! (path +:+ ".old") with Some _ => true | None => false end)
    eqn:Hold; simpl.
  - destruct (Logging.remove_fails ft) eqn:Hrm; simpl.
    { eexists _, _. split_and!; [reflexivity | by eauto |]. intros; reflexivity. }
    destruct (Logging.rename_fails ft) eqn:Hren; simpl.
    { eexists _, _. split_and!; [reflexivity | |]; [| intros; reflexivity].
      intros name x Hn. apply lookup_delete_Some in Hn as [_ Hn]. by eauto. }
    rewrite lookup_delete_ne, Hlog by done.
    unfold Logging.os_OpenFile.
    destruct (Logging.open_fails ft) eqn:Hopen; simpl.
    { eexists _, _. split_and!; [reflexivity | |]; [| intros; reflexivity].
      intros name x Hn.
      apply lookup_insert_Some in Hn as [[_ <-] | [_ Hn]]; [by eauto |].
      apply lookup_delete_Some in Hn as [_ Hn].
      apply lookup_delete_Some in Hn as [_ Hn]. by eauto. }
    destruct Hfail as [? | [(_ & _ & ?) | [? | ?]]]; congruence.
  - destruct (Logging.rename_fails ft) eqn:Hren; simpl.
    { eexists _, _. split_and!; [reflexivity | by eauto |]. intros; reflexivity. }
    rewrite Hlog. unfold Logging.os_OpenFile.
    destruct (Logging.open_fails ft) eqn:Hopen; simpl.
    { eexists _, _. split_and!; [reflexivity | |]; [| intros; reflexivity].
      intros name x Hn.
      apply lookup_insert_Some in Hn as [[_ <-] | [_ Hn]]; [by eauto |].
      apply lookup_delete_Some in Hn as [_ Hn]. by eauto. }
    destruct Hfail as [? | [(Hso & [x Hx] & ?) | [? | ?]]]; try congruence.
    rewrite Hso, Hx in Hold. discriminate.
Qed.

Lemma failed_rotation_silences_writer_witness :
  Logging.file Fixture.logWriter = Some (Logging.mkFile false)
  /\ Fixture.logDir !! Logging.filePath Fixture.logWriter = Some "0123456789"
  /\ Logging.maxSize Fixture.logWriter <= 10
  /\ exists rw' fs',
       Logging.Write Fixture.noRename "abc" Fixture.logWriter Fixture.logDir
         = ((0, Some Logging.EClosed), rw', fs')
       /\ (forall name x, fs' !! name = Some x ->
             exists name', Fixture.logDir !! name' = Some x)
       /\ forall ft' p' (fs'' : gmap string string),
            Logging.Write ft' p' rw' fs'' = ((0, Some Logging.EClosed), rw', fs'').
Proof.
  assert (H1 : Logging.file Fixture.logWriter = Some (Logging.mkFile false))
    by reflexivity.
  assert (H2 : Fixture.logDir !! Logging.filePath Fixture.logWriter = Some "0123456789")
    by reflexivity.
  assert (H3 : Logging.maxSize Fixture.logWriter <= 10) by (vm_compute; congruence).
  split; [exact H1 |]. split; [exact H2 |]. split; [exact H3 |].
  apply (failed_rotation_silences_writer Fixture.noRename "abc" Fixture.logWriter
           Fixture.logDir "0123456789" H1 H2 H3 eq_refl).
  right. right. left. reflexivity.
Defined.

(** ** Sessions of the web interface *)

Lemma Since_le now t :
  instant now - instant t <= Web.sessionTimeout ->
  (Web.sessionTimeout <? Web.Since now t) = false.
Proof.
  intros H. apply Z.ltb_ge. unfold Web.Since, Sub.
  assert (minDuration <= Web.sessionTimeout <= maxDuration) by (vm_compute; intuition congruence).
  cmp_cases; lia.
Qed.

Lemma Since_mono now now' t :
  instant now <= instant now' -> Web.Since now t <= Web.Since now' t.
Proof.
  intros H. unfold Web.Since, Sub.
  assert (minDuration <= maxDuration) by (vm_compute; congruence).
  cmp_cases; lia.
Qed.

(** X19: a session just created is usable.  After [createSession] the
    returned identifier is that of a stored session whose CSRF token
    [getCSRFToken] returns; [validateCSRFToken] accepts that token and no
    other; [isValidSession] accepts the session at every instant up to
    [sessionTimeout] after the creation; and the other sessions are
    untouched. *)
Theorem createSession_opens_session now sessionBytes csrfBytes sm sessionID sm' :
  Web.createSession now (Some sessionBytes) (Some csrfBytes) sm = (inr sessionID, sm') ->
  sessionID = Web.EncodeToString sessionBytes
  /\ Web.getCSRFToken sessionID sm' = inr (Web.EncodeToString csrfBytes)
  /\ (forall token,
        Web.validateCSRFToken sessionID token sm' = true
        <-> token = Web.EncodeToString csrfBytes)
  /\ (forall now',
        instant now' - instant now <= Web.sessionTimeout ->
        (Web.isValidSession now' sessionID sm').1 = true)
  /\ (forall other, other <> sessionID -> sm' !! other = sm !! other).
Proof.
  unfold Web.createSession. intros [= <- <-]. split_and!.
  - reflexivity.
  - unfold Web.getCSRFToken. by rewrite lookup_insert_eq.
  - intros token. unfold Web.validateCSRFToken, Web.ConstantTimeCompare.
    rewrite lookup_insert_eq. simpl.
    destruct (String.eqb_spec (Web.EncodeToString csrfBytes) token); simpl;
      split; intros; congruence.
  - intros now' Hnow'. unfold Web.isValidSession. rewrite lookup_insert_eq. simpl.
    by rewrite Since_le.
  - intros other Hne. by rewrite lookup_insert_ne.
Qed.

Lemma createSession_opens_session_witness :
  Web.createSession (Sample.clock 9 0) (Some [115; 105; 100]%N) (Some [116; 111; 107]%N)
    ∅ = (inr "c2lk", {[ "c2lk" := Web.mkSession "c2lk" "dG9r" (Sample.clock 9 0)
                                    (Sample.clock 9 0) ]})
  /\ "c2lk" = Web.EncodeToString [115; 105; 100]%N
  /\ Web.getCSRFToken "c2lk"
       {[ "c2lk" := Web.mkSession "c2lk" "dG9r" (Sample.clock 9 0) (Sample.clock 9 0) ]}
     = inr (Web.EncodeToString [116; 111; 107]%N).
Proof.
  assert (H : Web.createSession (Sample.clock 9 0) (Some [115; 105; 100]%N)
                (Some [116; 111; 107]%N) ∅
              = (inr "c2lk",
                 {[ "c2lk" := Web.mkSession "c2lk" "dG9r" (Sample.clock 9 0)
                                (Sample.clock 9 0) ]})) by reflexivity.
  split; [exact H |].
  destruct (createSession_opens_session _ _ _ _ _ _ H) as (H1 & H2 & _).
  split; [exact H1 | exact H2].
Defined.

(** X20: the expiry is sliding and has no absolute term.  A session
    used again and again, each time no more than [sessionTimeout] after
    the time before, is accepted every time, however long ago it was
    created; it keeps its CSRF token and its time of creation, and its
    last access is the last request. *)
Theorem session_kept_alive sessionID times : forall sm s,
  sm !! sessionID = Some s ->
  keptAlive (Web.lastAccess s) times ->
  Forall (fun ok => ok = true) (visits sessionID times sm).1
  /\ exists s',
       (visits sessionID times sm).2 !! sessionID = Some s'
       /\ Web.csrfToken s' = Web.csrfToken s
       /\ Web.created s' = Web.created s
       /\ Web.lastAccess s' = default (Web.lastAccess s) (last times).
Proof.
  induction times as [| now rest IH]; intros sm s Hs Halive; simpl.
  - split; [constructor |]. by exists s.
  - destruct Halive as [Hnow Hrest].
    unfold Web.isValidSession. rewrite Hs, (Since_le _ _ Hnow).
    set (s1 := Web.mkSession (Web.id s) (Web.csrfToken s) (Web.created s) now).
    destruct (IH (<[sessionID := s1]> sm) s1) as (Hall & s' & Hs' & Htok & Hcr & Hla).
    { apply lookup_insert_eq. }
    { exact Hrest. }
    destruct (visits sessionID rest (<[sessionID := s1]> sm)) as [oks sm'] eqn:Hv.
    simpl in *. split; [by constructor |].
    exists s'. split_and!; try done.
    rewrite Hla. destruct rest as [| t rest']; [done |]. simpl.
    destruct (last (t :: rest')) as [x |] eqn:Hlast; [done |].
    by apply last_None in Hlast.
Qed.

Lemma session_kept_alive_witness :
  Fixture.sessions !! "c2lk" = Some Fixture.session
  /\ keptAlive (Web.lastAccess Fixture.session)
       [Sample.clock 9 40; Sample.clock 10 5; Sample.clock 10 35]
  /\ Forall (fun ok => ok = true)
       (visits "c2lk" [Sample.clock 9 40; Sample.clock 10 5; Sample.clock 10 35]
          Fixture.sessions).1.
Proof.
  assert (H1 : Fixture.sessions !! "c2lk" = Some Fixture.session) by reflexivity.
  assert (H2 : keptAlive (Web.lastAccess Fixture.session)
                 [Sample.clock 9 40; Sample.clock 10 5; Sample.clock 10 35]).
  { simpl. repeat split; vm_compute; congruence. }
  split; [exact H1 |]. split; [exact H2 |].
  exact (proj1 (session_kept_alive "c2lk" _ Fixture.sessions Fixture.session H1 H2)).
Defined.

(** X21: a session refused by [isValidSession] is gone.  Whether it was
    unknown or had expired, afterwards the manager holds no session under
    that identifier: every later [isValidSession] refuses it, at whatever
    instant, [validateCSRFToken] rejects every token for it and
    [getCSRFToken] finds nothing; no other session is touched. *)
Theorem refused_session_is_gone now sessionID sm sm' :
  Web.isValidSession now sessionID sm = (false, sm') ->
  sm' !! sessionID = None
  /\ (forall now', Web.isValidSession now' sessionID sm' = (false, sm'))
  /\ (forall token, Web.validateCSRFToken sessionID token sm' = false)
  /\ Web.getCSRFToken sessionID sm' = inl Web.ESessionNotFound
  /\ (forall other, other <> sessionID -> sm' !! other = sm !! other).
Proof.
  unfold Web.isValidSession.
  destruct (sm !! sessionID) as [s |] eqn:Hs.
  - destruct (Web.sessionTimeout <? Web.Since now (Web.lastAccess s)); [| discriminate].
    intros [= <-].
    assert (Hgone : delete sessionID sm !! sessionID = None) by apply lookup_delete_eq.
    unfold Web.validateCSRFToken, Web.getCSRFToken. rewrite Hgone.
    split_and!; try done. intros other Hne. by rewrite lookup_delete_ne.
  - intros [= <-]. unfold Web.validateCSRFToken, Web.getCSRFToken. rewrite Hs.
    by split_and!.
Qed.

Lemma refused_session_is_gone_witness :
  Web.isValidSession (Sample.clock 9 41) "c2lk" Fixture.sessions = (false, ∅)
  /\ (∅ : Web.SessionManager) !! "c2lk" = None
  /\ (forall token, Web.validateCSRFToken "c2lk" token ∅ = false).
Proof.
  assert (H : Web.isValidSession (Sample.clock 9 41) "c2lk" Fixture.sessions
              = (false, ∅)) by (vm_compute; reflexivity).
  split; [exact H |].
  destruct (refused_session_is_gone _ _ _ _ H) as (H1 & _ & H3 & _).
  split; [exact H1 | exact H3].
Defined.

(** X22: the periodic sweep changes no answer.  It removes exactly the
    sessions whose last access lies more than [sessionTimeout] back, and
    whatever [isValidSession] answers at that instant or later for any
    identifier, it answers the same with and without the sweep. *)
Theorem cleanup_is_transparent now now' sessionID sm :
  instant now <= instant now' ->
  (forall s,
     Web.cleanupExpiredSessions now sm !! sessionID = Some s
     <-> sm !! sessionID = Some s
         /\ Web.Since now (Web.lastAccess s) <= Web.sessionTimeout)
  /\ (Web.isValidSession now' sessionID (Web.cleanupExpiredSessions now sm)).1
     = (Web.isValidSession now' sessionID sm).1.
Proof.
  intros Hlater.
  assert (Hkeep : forall s,
            Web.cleanupExpiredSessions now sm !! sessionID = Some s
            <-> sm !! sessionID = Some s
                /\ Web.Since now (Web.lastAccess s) <= Web.sessionTimeout).
  { intros s. unfold Web.cleanupExpiredSessions.
    rewrite map_lookup_filter_Some. simpl.
    destruct (Z.ltb_spec Web.sessionTimeout (Web.Since now (Web.lastAccess s)));
      simpl; intuition lia. }
  split; [exact Hkeep |].
  unfold Web.isValidSession.
  destruct (Web.cleanupExpiredSessions now sm !! sessionID) as [s |] eqn:Hc in |- *.
  - apply Hkeep in Hc as [-> _]. by destruct (_ <? _).
  - destruct (sm !! sessionID) as [s |] eqn:Hs; [| done].
    destruct (Z.ltb_spec Web.sessionTimeout (Web.Since now' (Web.lastAccess s)));
      [done |].
    assert (Hin : Web.cleanupExpiredSessions now sm !! sessionID = Some s).
    { apply Hkeep. split; [done |].
      pose proof (Since_mono now now' (Web.lastAccess s) Hlater). lia. }
    congruence.
Qed.

Lemma cleanup_is_transparent_witness :
  instant (Sample.clock 9 45) <= instant (Sample.clock 9 50)
  /\ (Web.isValidSession (Sample.clock 9 50) "c2lk"
        (Web.cleanupExpiredSessions (Sample.clock 9 45) Fixture.sessions)).1
     = (Web.isValidSession (Sample.clock 9 50) "c2lk" Fixture.sessions).1.
Proof.
  assert (H : instant (Sample.clock 9 45) <= instant (Sample.clock 9 50))
    by (vm_compute; congruence).
  split; [exact H |].
  exact (proj2 (cleanup_is_transparent (Sample.clock 9 45) (Sample.clock 9 50) "c2lk"
                  Fixture.sessions H)).
Defined.

(** ** How often an event is reminded *)

Lemma remindEvents_loop_file env cfg now events :
  accepting env ->
  forall w d,
    disk w = Some d ->
    exists w' d',
      remindEvents_loop env cfg now events w = (Ok tt, w')
      /\ disk w' = Some d'
      /\ (forall name,
            (forall e, e ∈ events -> ID (Event e) +:+ ".json" = name ->
                       due cfg now e = false) ->
            d' !! name = d !! name)
      /\ (NoDup ((fun e => ID (Event e)) <$> events) ->
          forall e, e ∈ events -> due cfg now e = true ->
          d' !! (ID (Event e) +:+ ".json") = Some (Json (recordAfter cfg now e))).
Proof.
  intros [Hma Hwr].
  induction events as [| e0 rest IH]; intros w d Hdisk.
  - exists w, d. split_and!; try done.
    intros _ e He. by apply elem_of_nil in He.
  - simpl. unfold bind.
    destruct (remindEvent_run env cfg now e0 w d Hdisk Hma (Hwr _)) as (sp & lg & ->).
    set (d1 := if due cfg now e0
               then <[ID (Event e0) +:+ ".json" := Json (recordAfter cfg now e0)]> d
               else d).
    destruct (IH (mkWorld (if due cfg now e0
                           then Some (<[ID (Event e0) +:+ ".json" :=
                                          Json (recordAfter cfg now e0)]> d)
                           else Some d) sp lg) d1)
      as (w' & d' & Hrun & Hd' & Hsame & Hset).
    { subst d1. simpl. by destruct (due cfg now e0). }
    exists w', d'. split_and!; try done.
    + intros name Hname. rewrite Hsame.
      * subst d1. destruct (due cfg now e0) eqn:Hdue; [| done].
        rewrite lookup_insert_ne; [done |]. intros Heq.
        rewrite (Hname e0) in Hdue; [done | by left | done].
      * intros e He. apply Hname. by right.
    + intros Hnodup e He Hdue. simpl in Hnodup.
      apply NoDup_cons in Hnodup as [Hnotin Hnodup].
      apply elem_of_cons in He as [-> | He]; [| by apply Hset].
      rewrite Hsame.
      * subst d1. rewrite Hdue. apply lookup_insert_eq.
      * intros e He Heq. exfalso. apply Hnotin.
        apply list_elem_of_fmap. exists e. split; [| done].
        by apply json_name_inj.
Qed.

(** A tick over a store that takes every update. *)
Lemma remindCurrentEvents_run env cfg now w dir :
  accepting env ->
  disk w = Some dir ->
  exists events w' dir',
    remindCurrentEvents env cfg now w = (Ok tt, w')
    /\ disk w' = Some dir'
    /\ spoken w' = spoken w ++ omap (announcement cfg now) events
    /\ (events = [] \/ events = omap (picked env now dir) (map_to_list dir).*1)
    /\ (forall name,
          (forall e, e ∈ events -> ID (Event e) +:+ ".json" = name ->
                     due cfg now e = false) ->
          dir' !! name = dir !! name)
    /\ (NoDup ((fun e => ID (Event e)) <$> events) ->
        forall e, e ∈ events -> due cfg now e = true ->
        dir' !! (ID (Event e) +:+ ".json") = Some (Json (recordAfter cfg now e))).
Proof.
  intros Hacc Hdisk. unfold remindCurrentEvents. rewrite bind_attempt.
  destruct (loadTodayEvents env now w) as [[events | err] w0] eqn:Hload; simpl;
    unfold loadTodayEvents, bind, os_ReadDir in Hload; rewrite Hdisk in Hload;
    destruct (loadTodayEvents_loop_world _ _ _ _ _ _ _ Hload) as [Hd0 Hs0].
  - unfold bind at 1, ret.
    destruct (remindEvents_loop_file env cfg now events Hacc w0 dir)
      as (w' & dir' & Hrun & Hd' & Hsame & Hset); [congruence |].
    exists events, w', dir'. split_and!; try done.
    + pose proof (remindEvents_loop_announces env cfg now events w0) as Hsp.
      rewrite Hrun in Hsp. simpl in Hsp. by rewrite Hsp, Hs0.
    + right. by rewrite (loadTodayEvents_loop_list _ _ _ _ _ _ _ _ Hdisk Hload).
  - exists [], (mkWorld (disk w0) (spoken w0) (logged w0 ++ [LogLoadEventsFailed err])),
      dir.
    unfold bind, logLine, ret. simpl. split_and!; try done.
    + congruence.
    + by rewrite app_nil_r.
    + by left.
    + intros _ e He. by apply elem_of_nil in He.
Qed.

Lemma remindCurrentEvents_ticked env cfg now w dir :
  disk w = Some dir ->
  consistent dir ->
  exists w' dir',
    remindCurrentEvents env cfg now w = (Ok tt, w')
    /\ disk w' = Some dir' /\ consistent dir'.
Proof.
  intros Hdisk Hcons.
  assert (Hloop : exists w' dir',
            remindCurrentEvents env cfg now w = (Ok tt, w')
            /\ disk w' = Some dir' /\ tickedFrom env dir dir').
  { unfold remindCurrentEvents. rewrite bind_attempt.
    destruct (loadTodayEvents env now w) as [[events | err] w0] eqn:Hload; simpl.
    - unfold loadTodayEvents, bind, os_ReadDir in Hload. rewrite Hdisk in Hload.
      destruct (loadTodayEvents_loop_sound _ _ _ _ _ _ _ _ Hdisk Hload) as [Hd0 Hfrom].
      unfold bind at 1, ret.
      apply (remindEvents_loop_ticked env cfg now dir events w0 dir Hd0 Hcons).
      + intros name. by left.
      + intros e He. destruct (Hfrom e He) as [Hin | (name & r0 & _ & Hr0 & _ & ->)].
        { by apply elem_of_nil in Hin. }
        exists r0. split; [| done].
        destruct (zoneFixed_fields env r0) as (-> & _).
        by rewrite <- (Hcons name r0 Hr0).
    - assert (Hd0 : disk w0 = Some dir).
      { unfold loadTodayEvents, bind, os_ReadDir in Hload. rewrite Hdisk in Hload.
        apply loadTodayEvents_loop_world in Hload as [-> _]. done. }
      unfold bind, logLine, ret. simpl.
      eexists _, dir. split_and!; [reflexivity | done |]. intros name. by left. }
  destruct Hloop as (w' & dir' & Hrun & Hd' & Hticked).
  exists w', dir'. split_and!; try done.
  intros name r Hr. destruct (Hticked name) as [Hsame | (r0 & r1 & Hr0 & Hr1 & Hev & _)].
  - apply Hcons. congruence.
  - assert (r1 = r) by congruence. subst r1.
    rewrite (Hcons name r0 Hr0).
    destruct (zoneFixed_fields env r0) as (<- & _). by rewrite Hev.
Qed.

Lemma Decision_eqb_eq a b : Decision_eqb a b = true <-> a = b.
Proof. destruct a, b; simpl; split; intros; congruence. Qed.

Lemma announcedTimes_app d id ds1 ds2 :
  announcedTimes d id (ds1 ++ ds2)
  = (announcedTimes d id ds1 + announcedTimes d id ds2)%nat.
Proof. unfold announcedTimes. by rewrite List.filter_app, length_app. Qed.

Lemma announcedTimes_none d id ds :
  (d, id) ∉ ds -> announcedTimes d id ds = 0%nat.
Proof.
  unfold announcedTimes. induction ds as [| [d0 i0] ds IH]; [done |].
  intros Hnot. simpl.
  assert (Hrest : (d, id) ∉ ds) by (intros H; apply Hnot; by right).
  destruct (Decision_eqb d0 d) eqn:Hd; simpl; [| by apply IH].
  destruct (String.eqb_spec i0 id) as [-> | _]; [| by apply IH].
  apply Decision_eqb_eq in Hd. subst d0. exfalso. apply Hnot. by left.
Qed.

Lemma announcedTimes_pos d id ds :
  (0 < announcedTimes d id ds)%nat -> (d, id) ∈ ds.
Proof.
  induction ds as [| [d0 i0] ds IH]; [unfold announcedTimes; simpl; lia |].
  change ((d0, i0) :: ds) with ([(d0, i0)] ++ ds). rewrite announcedTimes_app.
  unfold announcedTimes at 1. simpl.
  destruct (Decision_eqb d0 d) eqn:Hd; simpl; [| intros H; right; apply IH; lia].
  destruct (String.eqb_spec i0 id) as [-> | _]; simpl;
    [| intros H; right; apply IH; lia].
  apply Decision_eqb_eq in Hd. subst d0. intros _. by left.
Qed.

Lemma announcedTimes_le_1 d id ds :
  NoDup ds.*2 -> (announcedTimes d id ds <= 1)%nat.
Proof.
  induction ds as [| [d0 i0] ds IH]; simpl; intros Hnodup;
    [unfold announcedTimes; simpl; lia |].
  apply NoDup_cons in Hnodup as [Hnotin Hnodup].
  change ((d0, i0) :: ds) with ([(d0, i0)] ++ ds). rewrite announcedTimes_app.
  specialize (IH Hnodup).
  unfold announcedTimes at 1. simpl.
  destruct (Decision_eqb d0 d); simpl; [| lia].
  destruct (String.eqb_spec i0 id) as [-> | _]; simpl; [| lia].
  rewrite announcedTimes_none; [lia |].
  intros Hin. apply Hnotin. apply list_elem_of_fmap. by exists (d, id).
Qed.

Lemma reminderInterval_instants cfg e e' :
  instant (StartTime (Event e')) = instant (StartTime (Event e)) ->
  instant (EndTime (Event e')) = instant (EndTime (Event e)) ->
  reminderInterval cfg e' = reminderInterval cfg e.
Proof. unfold reminderInterval, Sub. by intros -> ->. Qed.

Lemma recordAfter_fields cfg now e :
  Event (recordAfter cfg now e) = Event e
  /\ (LastTimeReminded (recordAfter cfg now e) = LastTimeReminded e
      \/ LastTimeReminded (recordAfter cfg now e) = now).
Proof. unfold recordAfter. repeat case_match; simpl; auto. Qed.

Lemma announcement_Remind cfg now e id :
  announcement cfg now e = Some (Remind, id) ->
  due cfg now e = true
  /\ shouldRemindEvent cfg now e = true
  /\ LastTimeReminded (recordAfter cfg now e) = now.
Proof.
  unfold announcement, due, recordAfter.
  destruct (shouldAnnounceEventStart now e); [discriminate |].
  destruct (shouldCheckEventStarted now e); [discriminate |].
  destruct (shouldRemindEvent cfg now e); [done |].
  destruct (shouldAnnounceEventEnd now e); discriminate.
Qed.

Lemma shouldRemindEvent_true cfg now e :
  shouldRemindEvent cfg now e = true ->
  instant (StartTime (Event e)) <= instant now <= instant (EndTime (Event e))
  /\ instant (LastTimeReminded e) + reminderInterval cfg e < instant now.
Proof.
  unfold shouldRemindEvent, IsZero, Before, After, Add. simpl.
  destruct (EndAnnounced e); simpl; [discriminate |].
  cmp_cases; simpl; try discriminate; intros _; lia.
Qed.

(** What one tick does to the record of [id] and how many reminders of
    [id] it makes, over a store that takes every update. *)
Lemma tick_on_record env cfg now w dir id r :
  accepting env ->
  disk w = Some dir ->
  consistent dir ->
  dir !! (id +:+ ".json") = Some (Json r) ->
  exists w' dir' ds r',
    remindCurrentEvents env cfg now w = (Ok tt, w')
    /\ disk w' = Some dir'
    /\ consistent dir'
    /\ spoken w' = spoken w ++ ds
    /\ dir' !! (id +:+ ".json") = Some (Json r')
    /\ instant (StartTime (Event r')) = instant (StartTime (Event r))
    /\ instant (EndTime (Event r')) = instant (EndTime (Event r))
    /\ ((announcedTimes Remind id ds = 1%nat
         /\ instant (StartTime (Event r)) <= instant now <= instant (EndTime (Event r))
         /\ instant (LastTimeReminded r) + reminderInterval cfg r < instant now
         /\ instant (LastTimeReminded r') = instant now)
        \/ (announcedTimes Remind id ds = 0%nat
            /\ (instant (LastTimeReminded r') = instant (LastTimeReminded r)
                \/ instant (LastTimeReminded r') = instant now))).
Proof.
  intros Hacc Hdisk Hcons Hr.
  destruct (remindCurrentEvents_run env cfg now w dir Hacc Hdisk)
    as (events & w' & dir' & Hrun & Hd' & Hsp & Hev & Hsame & Hset).
  destruct (remindCurrentEvents_ticked env cfg now w dir Hdisk Hcons)
    as (w2 & dir2 & Hrun2 & Hd2 & Hcons').
  assert (w2 = w') by congruence. subst w2.
  assert (dir2 = dir') by congruence. subst dir2.
  set (e := zoneFixed env r).
  destruct (zoneFixed_fields env r) as (Hid & _ & _ & _ & Hst & Hen & Hla).
  fold e in Hid, Hst, Hen, Hla.
  assert (Hidr : ID (Event r) = id).
  { apply json_name_inj. symmetry. exact (Hcons _ _ Hr). }
  assert (Hint : reminderInterval cfg e = reminderInterval cfg r)
    by (by apply reminderInterval_instants).
  assert (Honly : forall e', e' ∈ events -> ID (Event e') = id -> e' = e).
  { intros e' He' Hide'. destruct Hev as [-> | ->]; [by apply elem_of_nil in He' |].
    apply list_elem_of_omap in He' as (name & _ & Hpick).
    apply picked_from in Hpick as (r1 & Hr1 & _ & ->).
    destruct (zoneFixed_fields env r1) as (Hid1 & _).
    assert (name = id +:+ ".json").
    { rewrite (Hcons _ _ Hr1). congruence. }
    subst name. assert (r1 = r) by congruence. by subst r1. }
  assert (Hnodup : NoDup ((fun e => ID (Event e)) <$> events)).
  { destruct Hev as [-> | ->]; [constructor |].
    apply picked_NoDup; [done |]. apply NoDup_fst_map_to_list. }
  assert (Hle : (announcedTimes Remind id (omap (announcement cfg now) events) <= 1)%nat).
  { apply announcedTimes_le_1. by apply announcement_NoDup. }
  assert (Hstays : forall e', e' ∈ events -> ID (Event e') +:+ ".json" = id +:+ ".json" ->
                              e' = e).
  { intros e' He' Heq. apply Honly; [done |]. by apply json_name_inj. }
  assert (Hcase : e ∈ events \/ forall e', e' ∈ events -> ID (Event e') <> id).
  { destruct Hev as [-> | ->].
    - right. intros e' He'. by apply elem_of_nil in He'.
    - destruct (inWorkingSet now r) eqn:Hws.
      + left. apply list_elem_of_omap. exists (id +:+ ".json"). split.
        * apply listed_files. by exists (Json r).
        * unfold picked. by rewrite Hr, Hws.
      + right. intros e' He' Hide'.
        apply list_elem_of_omap in He' as (name & _ & Hpick).
        apply picked_from in Hpick as (r1 & Hr1 & Hws1 & ->).
        destruct (zoneFixed_fields env r1) as (Hid1 & _).
        assert (name = id +:+ ".json").
        { rewrite (Hcons _ _ Hr1). congruence. }
        subst name. assert (r1 = r) by congruence. subst r1. congruence. }
  destruct (announcedTimes Remind id (omap (announcement cfg now) events)) as [| k] eqn:Hcount.
  - destruct Hcase as [He | Hnone]; [destruct (due cfg now e) eqn:Hdue |].
    + exists w', dir', (omap (announcement cfg now) events), (recordAfter cfg now e).
      destruct (recordAfter_fields cfg now e) as [Hevent Hlast].
      split_and!; try done.
      * rewrite <- Hidr, <- Hid. by apply Hset.
      * by rewrite Hevent.
      * by rewrite Hevent.
      * right. split; [done |]. destruct Hlast as [-> | ->]; [left | right]; done.
    + exists w', dir', (omap (announcement cfg now) events), r.
      split_and!; try done.
      * rewrite Hsame; [done |]. intros e' He' Heq.
        by rewrite (Hstays e' He' Heq).
      * right. split; [done |]. by left.
    + exists w', dir', (omap (announcement cfg now) events), r.
      split_and!; try done.
      * rewrite Hsame; [done |]. intros e' He' Heq.
        apply json_name_inj in Heq. by destruct (Hnone e' He').
      * right. split; [done |]. by left.
  - assert (k = 0%nat) by lia. subst k.
    assert (Hin : (Remind, id) ∈ omap (announcement cfg now) events).
    { apply announcedTimes_pos. lia. }
    apply list_elem_of_omap in Hin as (e' & He' & Hann).
    pose proof (announcement_ID _ _ _ _ _ Hann) as Hide'.
    assert (e' = e) by (by apply Honly). subst e'.
    apply announcement_Remind in Hann as (Hdue & Hguard & Hnew).
    apply shouldRemindEvent_true in Hguard as [Hwin Hlate].
    exists w', dir', (omap (announcement cfg now) events), (recordAfter cfg now e).
    destruct (recordAfter_fields cfg now e) as [Hevent _].
    split_and!; try done.
    + rewrite <- Hidr, <- Hid. by apply Hset.
    + by rewrite Hevent.
    + by rewrite Hevent.
    + left. split_and!; [done | lia | lia | lia | by rewrite Hnew].
Qed.


Lemma ascending_increasing a rest :
  ascending (a :: rest) -> increasing (instant a) (a :: rest).
Proof.
  revert a. induction rest as [| b rest IH]; intros a; simpl.
  - intros _. split; [lia | done].
  - intros [Hab Hrest]. split; [lia |].
    destruct (IH b Hrest) as [_ Hinc]. split; [lia | exact Hinc].
Qed.

Lemma main_loop_reminders env cfg id s t I :
  accepting env ->
  0 < NotificationRepeats cfg ->
  forall times w dir r lo M,
    disk w = Some dir ->
    consistent dir ->
    dir !! (id +:+ ".json") = Some (Json r) ->
    instant (StartTime (Event r)) = s ->
    instant (EndTime (Event r)) = t ->
    reminderInterval cfg r = I ->
    M <= instant (LastTimeReminded r) ->
    M < lo ->
    increasing lo times ->
    exists w' ds,
      main_loop env cfg times w = (Ok tt, w')
      /\ spoken w' = spoken w ++ ds
      /\ (announcedTimes Remind id ds = 0%nat
          \/ (Z.max (Z.max s lo) (M + I + 1) <= t
              /\ Z.of_nat (announcedTimes Remind id ds) * (I + 1)
                 <= t - Z.max (Z.max s lo) (M + I + 1) + I + 1)).
Proof.
  intros Hacc Hrep.
  induction times as [| now rest IH];
    intros w dir r lo M Hdisk Hcons Hr Hs Ht HI HM Hlo Hinc.
  - exists w, []. simpl. split_and!; [done | by rewrite app_nil_r | by left].
  - destruct Hinc as [Hnow Hinc].
    destruct (tick_on_record env cfg now w dir id r Hacc Hdisk Hcons Hr)
      as (w1 & dir1 & ds1 & r1 & Hrun & Hd1 & Hcons1 & Hsp1 & Hr1 & Hs1 & Ht1 & Hstep).
    assert (HI1 : reminderInterval cfg r1 = I).
    { rewrite <- HI. by apply reminderInterval_instants. }
    rewrite Hs in Hs1. rewrite Ht in Ht1.
    simpl. unfold bind. rewrite Hrun.
    destruct Hstep as [(Hk & Hwin & Hlate & Hnew) | (Hk & Hnew)].
    + destruct (IH w1 dir1 r1 (instant now + 1) (instant now)
                  Hd1 Hcons1 Hr1 Hs1 Ht1 HI1) as (w' & ds2 & Hrest & Hsp2 & Hbound);
        [lia | lia | done |].
      exists w', (ds1 ++ ds2). split_and!; [done | by rewrite Hsp2, Hsp1, app_assoc |].
      right. rewrite announcedTimes_app, Hk, Nat2Z.inj_add. rewrite Hs, Ht, HI in *.
      assert (HI0 : 0 <= I).
      { rewrite <- HI. unfold reminderInterval. apply Z.quot_pos; [| lia].
        unfold Sub. rewrite Hs, Ht.
        assert (minDuration <= 0 <= maxDuration) by (vm_compute; intuition congruence).
        cmp_cases; lia. }
      destruct Hbound as [-> | [He Hb]]; [lia | nia].
    + destruct (IH w1 dir1 r1 (instant now + 1) M
                  Hd1 Hcons1 Hr1 Hs1 Ht1 HI1) as (w' & ds2 & Hrest & Hsp2 & Hbound);
        [lia | lia | done |].
      exists w', (ds1 ++ ds2). split_and!; [done | by rewrite Hsp2, Hsp1, app_assoc |].
      rewrite announcedTimes_app, Hk. simpl.
      destruct Hbound as [-> | [He Hb]]; [by left | right]. lia.
Qed.

(** X23: an event is reminded at most [NotificationRepeats] times.
    Over a store that takes every update and in which every readable
    record lies under the name of its identifier, however many turns the
    loop of [main] takes and whenever they come, as long as the clock
    moves forward between two turns, the turns together make no more
    [Remind] announcements for an event than the configured number of
    repeats, provided the event lasts no longer than a [Duration] can
    hold. *)
Theorem at_most_repeats_reminders env cfg times w dir id r :
  accepting env ->
  disk w = Some dir ->
  consistent dir ->
  dir !! (id +:+ ".json") = Some (Json r) ->
  0 < NotificationRepeats cfg ->
  instant (EndTime (Event r)) - instant (StartTime (Event r)) <= maxDuration ->
  ascending times ->
  exists w' ds,
    main_loop env cfg times w = (Ok tt, w')
    /\ spoken w' = spoken w ++ ds
    /\ Z.of_nat (announcedTimes Remind id ds) <= NotificationRepeats cfg.
Proof.
  intros Hacc Hdisk Hcons Hr Hrep Hdur Hasc.
  set (s := instant (StartTime (Event r))) in *.
  set (t := instant (EndTime (Event r))) in *.
  set (lo := match times with now :: _ => instant now | [] => 0 end).
  destruct (main_loop_reminders env cfg id s t (reminderInterval cfg r) Hacc Hrep
              times w dir r lo (Z.min (instant (LastTimeReminded r)) (lo - 1))
              Hdisk Hcons Hr eq_refl eq_refl eq_refl)
    as (w' & ds & Hrun & Hsp & Hbound); [lia | lia | |].
  { subst lo. destruct times as [| a rest]; [done |]. by apply ascending_increasing. }
  exists w', ds. split_and!; [done | done |].
  destruct Hbound as [-> | [He Hb]]; [simpl; lia |].
  assert (Hst : s <= t) by lia.
  assert (HI : reminderInterval cfg r = (t - s) / NotificationRepeats cfg).
  { unfold reminderInterval. rewrite Sub_exact.
    - apply Z.quot_div_nonneg; fold s t; lia.
    - fold s t. unfold minDuration. lia. }
  rewrite HI in *.
  pose proof (Z.mul_succ_div_gt (t - s) (NotificationRepeats cfg) Hrep) as Hgt.
  assert (0 <= (t - s) / NotificationRepeats cfg) by (apply Z.div_pos; lia).
  nia.
Qed.

Lemma at_most_repeats_reminders_witness :
  accepting Sample.env
  /\ disk Fixture.worldH = Some {[ "H.json" := Json Sample.hour_task ]}
  /\ consistent {[ "H.json" := Json Sample.hour_task ]}
  /\ 0 < NotificationRepeats Sample.cfg
  /\ ascending [Sample.clock 10 21; Sample.clock 10 42; Sample.clock 10 50]
  /\ exists w' ds,
       main_loop Sample.env Sample.cfg
         [Sample.clock 10 21; Sample.clock 10 42; Sample.clock 10 50] Fixture.worldH
         = (Ok tt, w')
       /\ spoken w' = spoken Fixture.worldH ++ ds
       /\ Z.of_nat (announcedTimes Remind "H" ds) <= NotificationRepeats Sample.cfg.
Proof.
  assert (H1 : accepting Sample.env) by (split; intros; reflexivity).
  assert (H2 : disk Fixture.worldH = Some {[ "H.json" := Json Sample.hour_task ]})
    by reflexivity.
  assert (H3 : consistent {[ "H.json" := Json Sample.hour_task ]}).
  { intros name e H. apply lookup_singleton_Some in H as [<- [= <-]]. reflexivity. }
  assert (H4 : ({[ "H.json" := Json Sample.hour_task ]} : gmap string FileContent)
               !! ("H" +:+ ".json") = Some (Json Sample.hour_task)) by reflexivity.
  assert (H5 : 0 < NotificationRepeats Sample.cfg) by reflexivity.
  assert (H6 : instant (EndTime (Event Sample.hour_task))
               - instant (StartTime (Event Sample.hour_task)) <= maxDuration)
    by (vm_compute; congruence).
  assert (H7 : ascending [Sample.clock 10 21; Sample.clock 10 42; Sample.clock 10 50])
    by (simpl; repeat split; vm_compute; reflexivity).
  split; [exact H1 |]. split; [exact H2 |]. split; [exact H3 |]. split; [exact H5 |].
  split; [exact H7 |].
  exact (at_most_repeats_reminders Sample.env Sample.cfg
           [Sample.clock 10 21; Sample.clock 10 42; Sample.clock 10 50]
           Fixture.worldH _ "H" Sample.hour_task H1 H2 H3 H4 H5 H6 H7).
Defined.


(** ** The day of an instant *)

(** X24: [startOfDay] is the midnight of the UTC day.  It rounds the
    instant down to a whole number of 24-hour days counted from the zero
    time, whatever the zone the time is presented in (which it keeps):
    the result is at most the instant and less than 24 hours before it,
    and [scheduledForToday] compares events and clock by that day. *)
Theorem startOfDay_utc_midnight t :
  instant (startOfDay t) = 24 * Hour * (instant t / (24 * Hour))
  /\ 0 <= instant t - instant (startOfDay t) < 24 * Hour
  /\ location (startOfDay t) = location t
  /\ (forall loc, instant (startOfDay (In t loc)) = instant (startOfDay t))
  /\ startOfDay (startOfDay t) = startOfDay t
  /\ (forall now e,
        scheduledForToday now e = true
        <-> instant (startOfDay (StartTime (Event e))) = instant (startOfDay now)).
Proof.
  assert (Hd : 0 < 24 * Hour) by reflexivity.
  assert (Hi : forall u, instant (startOfDay u) = 24 * Hour * (instant u / (24 * Hour))).
  { intros u. unfold startOfDay, Truncate, Add.
    change (24 * Hour <=? 0) with false. simpl.
    rewrite Z.mod_eq by lia. lia. }
  split; [| split; [| split; [| split; [| split]]]].
  - apply Hi.
  - rewrite Hi. pose proof (Z.mod_pos_bound (instant t) (24 * Hour) Hd) as Hm.
    rewrite Z.mod_eq in Hm by lia. lia.
  - unfold startOfDay, Truncate, Add. by change (24 * Hour <=? 0) with false.
  - intros loc. by rewrite !Hi.
  - assert (instant (startOfDay (startOfDay t)) = instant (startOfDay t)) as Hfix.
    { rewrite (Hi (startOfDay t)), (Hi t).
      rewrite (Z.mul_comm (24 * Hour) (instant t / (24 * Hour))), Z.div_mul by lia.
      lia. }
    destruct (startOfDay (startOfDay t)) as [i1 l1] eqn:H1.
    destruct (startOfDay t) as [i0 l0] eqn:H0. simpl in Hfix. subst i1.
    f_equal. unfold startOfDay, Truncate, Add in H1.
    change (24 * Hour <=? 0) with false in H1. simpl in H1. congruence.
  - intros now e. unfold scheduledForToday, Equal. rewrite Z.eqb_eq. reflexivity.
Qed.

(** ** A refresh of the calendar between two ticks *)

Lemma syncLocalEvents_record env events w w1 dir id old :
  syncLocalEvents env events w = (Ok tt, w1) ->
  disk w = Some dir ->
  id ∈ ID <$> events ->
  dir !! (id +:+ ".json") = Some (Json old) ->
  exists dir1 r1,
    disk w1 = Some dir1
    /\ dir1 !! (id +:+ ".json") = Some (Json r1)
    /\ sameLifecycle old r1.
Proof.
  unfold syncLocalEvents, bind.
  destruct (saveEvents_loop env events w) as [[[] | err] w0] eqn:Hsave;
    [| discriminate].
  intros Hremove Hdisk Hin Hold.
  destruct (removeLocalEventsNotInCalendar_ok _ _ _ _ Hremove)
    as (dir0 & dir1 & Hd0 & Hd1 & Hlook).
  destruct (saveEvents_loop_lifecycle _ _ _ _ Hsave (id +:+ ".json") old)
    as (r & Hr & Hsame).
  { by rewrite Hdisk. }
  rewrite Hd0 in Hr. simpl in Hr.
  exists dir1, r. split_and!; try done.
  rewrite Hlook, stale_json_name, bool_decide_eq_true_2 by done. done.
Qed.

Lemma syncLocalEvents_files env events w w1 :
  syncLocalEvents env events w = (Ok tt, w1) ->
  exists dir1,
    disk w1 = Some dir1
    /\ forall id, is_Some (dir1 !! (id +:+ ".json")) -> id ∈ ID <$> events.
Proof.
  unfold syncLocalEvents, bind.
  destruct (saveEvents_loop env events w) as [[[] | err] w0] eqn:Hsave;
    [| discriminate].
  intros Hremove.
  destruct (removeLocalEventsNotInCalendar_ok _ _ _ _ Hremove)
    as (dir0 & dir1 & Hd0 & Hd1 & Hlook).
  exists dir1. split; [done |]. intros id Hsome.
  rewrite Hlook, stale_json_name in Hsome.
  case_bool_decide; [done |]. simpl in Hsome. by destruct Hsome.
Qed.

Lemma syncLocalEvents_consistent env events w w1 :
  syncLocalEvents env events w = (Ok tt, w1) ->
  (forall name, is_Some (default ∅ (disk w) !! name) -> HasSuffix name ".json" = true) ->
  exists dir1, disk w1 = Some dir1 /\ consistent dir1.
Proof.
  intros Hsync Honly.
  destruct (syncLocalEvents_store _ _ _ _ Hsync) as (dir1 & Hd1 & Hjson & Hrest).
  exists dir1. split; [done |]. intros name e He.
  destruct (Hjson name (Json e) He) as (e' & [= <-] & Hname); [| done].
  destruct (HasSuffix name ".json") eqn:Hs; [done |].
  rewrite (Hrest name Hs) in He. rewrite (Honly name) in Hs; [done |]. by eexists.
Qed.

(** Where an announcement of a tick comes from, in a store in which
    every readable record lies under the name of its identifier. *)
Lemma remindCurrentEvents_source env cfg now w dir :
  disk w = Some dir ->
  consistent dir ->
  exists ds,
    spoken (remindCurrentEvents env cfg now w).2 = spoken w ++ ds
    /\ forall d id, (d, id) ∈ ds ->
         exists r, dir !! (id +:+ ".json") = Some (Json r)
                   /\ announcement cfg now (zoneFixed env r) = Some (d, id).
Proof.
  intros Hdisk Hcons.
  destruct (remindCurrentEvents_spoken env cfg now w dir Hdisk)
    as (events & Hsp & Hev).
  eexists. split; [exact Hsp |].
  intros d id Hin.
  apply list_elem_of_omap in Hin as (e & He & Hann).
  destruct Hev as [-> | ->]; [by apply elem_of_nil in He |].
  apply list_elem_of_omap in He as (name & _ & Hpick).
  apply picked_from in Hpick as (r & Hr & _ & ->).
  exists r. split; [| done].
  apply announcement_ID in Hann.
  destruct (zoneFixed_fields env r) as (Hid & _).
  rewrite Hann, Hid, <- (Hcons name r Hr). done.
Qed.

(** X25: what was announced is not announced again after a refresh of
    the calendar.  If the record of an event has a lifecycle flag set,
    the event is still in the calendar and the events directory holds
    only files named [*.json], then after a successful [syncLocalEvents]
    the next [remindCurrentEvents], at whatever instant, does not make
    the announcement that the flag stands for: no start announcement
    with [StartAnnounced], no start check with [CheckStartAnnounced], no
    end announcement and no reminder with [EndAnnounced]. *)
Theorem announced_stays_announced_after_sync env cfg events now w w1 dir id r :
  disk w = Some dir ->
  (forall name, is_Some (dir !! name) -> HasSuffix name ".json" = true) ->
  dir !! (id +:+ ".json") = Some (Json r) ->
  id ∈ ID <$> events ->
  syncLocalEvents env events w = (Ok tt, w1) ->
  exists ds,
    spoken (remindCurrentEvents env cfg now w1).2 = spoken w1 ++ ds
    /\ (StartAnnounced r = true -> (AnnounceStart, id) ∉ ds)
    /\ (CheckStartAnnounced r = true -> (CheckStarted, id) ∉ ds)
    /\ (EndAnnounced r = true -> ((AnnounceEnd, id) ∉ ds) /\ ((Remind, id) ∉ ds)).
Proof.
  intros Hdisk Honly Hr Hin Hsync.
  destruct (syncLocalEvents_record _ _ _ _ _ _ _ Hsync Hdisk Hin Hr)
    as (dir1 & r1 & Hd1 & Hr1 & Hs & Hc & He & _).
  destruct (syncLocalEvents_consistent _ _ _ _ Hsync) as (dir1' & Hd1' & Hcons).
  { rewrite Hdisk. exact Honly. }
  assert (dir1' = dir1) by congruence. subst dir1'.
  destruct (remindCurrentEvents_source env cfg now w1 dir1 Hd1 Hcons) as (ds & Hsp & Hsrc).
  destruct (zoneFixed_fields env r1) as (_ & Fs & Fc & Fe & _).
  assert (Hann : forall d, (d, id) ∈ ds ->
                           announcement cfg now (zoneFixed env r1) = Some (d, id)).
  { intros d Hd. destruct (Hsrc d id Hd) as (r' & Hr' & Hann). congruence. }
  exists ds. split; [done |]. split_and!.
  - intros Hflag Hd. apply Hann in Hd. revert Hd.
    unfold announcement, shouldAnnounceEventStart. rewrite Fs, Hs, Hflag. simpl.
    repeat case_match; discriminate.
  - intros Hflag Hd. apply Hann in Hd. revert Hd.
    unfold announcement, shouldCheckEventStarted. rewrite Fc, Hc, Hflag.
    rewrite orb_true_r. repeat case_match; discriminate.
  - intros Hflag. split; intros Hd; apply Hann in Hd; revert Hd;
      unfold announcement, shouldRemindEvent, shouldAnnounceEventEnd;
      rewrite Fe, He, Hflag; simpl; repeat case_match; discriminate.
Qed.

Lemma announced_stays_announced_after_sync_witness :
  disk Sample.worldABC = Some Sample.dirABC
  /\ Sample.dirABC !! ("B" +:+ ".json") = Some (Json Sample.finishedB)
  /\ exists ds,
       spoken (remindCurrentEvents Sample.env Sample.cfg (Sample.clock 9 29)
                 (syncLocalEvents Sample.env [Sample.taskB] Sample.worldABC).2).2
       = spoken (syncLocalEvents Sample.env [Sample.taskB] Sample.worldABC).2 ++ ds
       /\ (StartAnnounced Sample.finishedB = true -> (AnnounceStart, "B") ∉ ds)
       /\ (CheckStartAnnounced Sample.finishedB = true -> (CheckStarted, "B") ∉ ds)
       /\ (EndAnnounced Sample.finishedB = true ->
           ((AnnounceEnd, "B") ∉ ds) /\ ((Remind, "B") ∉ ds)).
Proof.
  assert (H1 : disk Sample.worldABC = Some Sample.dirABC) by reflexivity.
  assert (H2 : forall name, is_Some (Sample.dirABC !! name) ->
                            HasSuffix name ".json" = true).
  { intros name [c Hc]. unfold Sample.dirABC in Hc.
    apply lookup_insert_Some in Hc as [[<- _] | [_ Hc]]; [reflexivity |].
    apply lookup_insert_Some in Hc as [[<- _] | [_ Hc]]; [reflexivity |].
    apply lookup_singleton_Some in Hc as [<- _]. reflexivity. }
  assert (H3 : Sample.dirABC !! ("B" +:+ ".json") = Some (Json Sample.finishedB))
    by reflexivity.
  assert (H4 : "B" ∈ ID <$> [Sample.taskB]) by (simpl; by left).
  assert (H5 : syncLocalEvents Sample.env [Sample.taskB] Sample.worldABC =
               (Ok tt, (syncLocalEvents Sample.env [Sample.taskB] Sample.worldABC).2))
    by (vm_compute; reflexivity).
  split; [exact H1 |]. split; [exact H3 |].
  exact (announced_stays_announced_after_sync Sample.env Sample.cfg [Sample.taskB]
           (Sample.clock 9 29) Sample.worldABC _ Sample.dirABC "B" Sample.finishedB
           H1 H2 H3 H4 H5).
Defined.

(** X26: an event taken out of the calendar falls silent.  When the
    events directory holds only files named [*.json], then after a
    successful [syncLocalEvents] the next [remindCurrentEvents] makes no
    announcement for an identifier that is not in the remote list,
    whatever the store held for it. *)
Theorem removed_event_is_silent env cfg events now w w1 id :
  (forall name, is_Some (default ∅ (disk w) !! name) -> HasSuffix name ".json" = true) ->
  id ∉ ID <$> events ->
  syncLocalEvents env events w = (Ok tt, w1) ->
  exists ds,
    spoken (remindCurrentEvents env cfg now w1).2 = spoken w1 ++ ds
    /\ forall d, (d, id) ∉ ds.
Proof.
  intros Honly Hnotin Hsync.
  destruct (syncLocalEvents_files _ _ _ _ Hsync) as (dir1 & Hd1 & Hfiles).
  destruct (syncLocalEvents_consistent _ _ _ _ Hsync Honly) as (dir1' & Hd1' & Hcons).
  assert (dir1' = dir1) by congruence. subst dir1'.
  destruct (remindCurrentEvents_source env cfg now w1 dir1 Hd1 Hcons) as (ds & Hsp & Hsrc).
  exists ds. split; [done |]. intros d Hd.
  destruct (Hsrc d id Hd) as (r' & Hr' & _).
  apply Hnotin, Hfiles. by eexists.
Qed.

Lemma removed_event_is_silent_witness :
  ("B" ∉ ID <$> [Sample.task; Sample.taskC])
  /\ exists ds,
       spoken (remindCurrentEvents Sample.env Sample.cfg (Sample.clock 9 29)
                 (syncLocalEvents Sample.env [Sample.task; Sample.taskC]
                    Sample.worldABC).2).2
       = spoken (syncLocalEvents Sample.env [Sample.task; Sample.taskC]
                   Sample.worldABC).2 ++ ds
       /\ forall d, (d, "B") ∉ ds.
Proof.
  assert (H1 : forall name, is_Some (default ∅ (disk Sample.worldABC) !! name) ->
                            HasSuffix name ".json" = true).
  { intros name [c Hc]. simpl in Hc. unfold Sample.dirABC in Hc.
    apply lookup_insert_Some in Hc as [[<- _] | [_ Hc]]; [reflexivity |].
    apply lookup_insert_Some in Hc as [[<- _] | [_ Hc]]; [reflexivity |].
    apply lookup_singleton_Some in Hc as [<- _]. reflexivity. }
  assert (H2 : "B" ∉ ID <$> [Sample.task; Sample.taskC]).
  { simpl. intros H. repeat (apply elem_of_cons in H as [H | H]; [discriminate |]).
    by apply elem_of_nil in H. }
  assert (H3 : syncLocalEvents Sample.env [Sample.task; Sample.taskC] Sample.worldABC =
               (Ok tt, (syncLocalEvents Sample.env [Sample.task; Sample.taskC]
                          Sample.worldABC).2))
    by (vm_compute; reflexivity).
  split; [exact H2 |].
  exact (removed_event_is_silent Sample.env Sample.cfg [Sample.task; Sample.taskC]
           (Sample.clock 9 29) Sample.worldABC _ "B" H1 H2 H3).
Defined.


(** ** Announcements made once *)

Lemma announcement_due cfg now e a :
  announcement cfg now e = Some a -> due cfg now e = true.
Proof.
  unfold announcement, due.
  destruct (shouldAnnounceEventStart now e); [done |].
  destruct (shouldCheckEventStarted now e); [done |].
  destruct (shouldRemindEvent cfg now e); [done |].
  destruct (shouldAnnounceEventEnd now e); [done | discriminate].
Qed.

(** A one-shot announcement is made only with its flag clear, and sets
    it in the record written back; no pass clears a flag. *)
Lemma announcement_sets_flag cfg now e d id :
  announcement cfg now e = Some (d, id) ->
  d <> Remind ->
  flagOf d e = false /\ flagOf d (recordAfter cfg now e) = true.
Proof.
  unfold announcement, recordAfter.
  destruct (shouldAnnounceEventStart now e) eqn:H1.
  { intros [= <- _] _. simpl. unfold shouldAnnounceEventStart in H1.
    by destruct (StartAnnounced e). }
  destruct (shouldCheckEventStarted now e) eqn:H2.
  { intros [= <- _] _. simpl. unfold shouldCheckEventStarted in H2.
    destruct (CheckStartAnnounced e); [| done].
    by rewrite orb_true_r in H2. }
  destruct (shouldRemindEvent cfg now e) eqn:H3.
  { by intros [= <- _] Hd. }
  destruct (shouldAnnounceEventEnd now e) eqn:H4; [| discriminate].
  intros [= <- _] _. simpl. unfold shouldAnnounceEventEnd in H4.
  by destruct (EndAnnounced e).
Qed.

Lemma recordAfter_keeps_flag cfg now e d :
  flagOf d e = true -> flagOf d (recordAfter cfg now e) = true.
Proof.
  unfold recordAfter. destruct d; simpl; repeat case_match; simpl; auto.
Qed.

Lemma zoneFixed_flagOf env r d : flagOf d (zoneFixed env r) = flagOf d r.
Proof.
  destruct (zoneFixed_fields env r) as (_ & F1 & F2 & F3 & _).
  by destruct d.
Qed.

(** What one tick does to the file of the event [id] and which
    announcements of [id] it makes, over a store that takes every
    update. *)
Lemma tick_on_file env cfg now w dir id r :
  accepting env ->
  disk w = Some dir ->
  consistent dir ->
  dir !! (id +:+ ".json") = Some (Json r) ->
  exists w' dir' ds r',
    remindCurrentEvents env cfg now w = (Ok tt, w')
    /\ disk w' = Some dir'
    /\ consistent dir'
    /\ spoken w' = spoken w ++ ds
    /\ NoDup ds.*2
    /\ dir' !! (id +:+ ".json") = Some (Json r')
    /\ ((r' = recordAfter cfg now (zoneFixed env r)
         /\ forall d, (d, id) ∈ ds
                      <-> announcement cfg now (zoneFixed env r) = Some (d, id))
        \/ (r' = r /\ forall d, (d, id) ∉ ds)).
Proof.
  intros Hacc Hdisk Hcons Hr.
  destruct (remindCurrentEvents_run env cfg now w dir Hacc Hdisk)
    as (events & w' & dir' & Hrun & Hd' & Hsp & Hev & Hsame & Hset).
  destruct (remindCurrentEvents_ticked env cfg now w dir Hdisk Hcons)
    as (w2 & dir2 & Hrun2 & Hd2 & Hcons').
  assert (w2 = w') by congruence. subst w2.
  assert (dir2 = dir') by congruence. subst dir2.
  set (e := zoneFixed env r).
  destruct (zoneFixed_fields env r) as (Hid & _). fold e in Hid.
  assert (Hidr : ID (Event r) = id).
  { apply json_name_inj. symmetry. exact (Hcons _ _ Hr). }
  assert (Hfrom : forall e', e' ∈ events -> ID (Event e') = id ->
                             e' = e /\ inWorkingSet now r = true).
  { intros e' He' Hide'. destruct Hev as [-> | ->]; [by apply elem_of_nil in He' |].
    apply list_elem_of_omap in He' as (name & _ & Hpick).
    apply picked_from in Hpick as (r1 & Hr1 & Hws & ->).
    destruct (zoneFixed_fields env r1) as (Hid1 & _).
    assert (name = id +:+ ".json").
    { rewrite (Hcons _ _ Hr1). congruence. }
    subst name. assert (r1 = r) by congruence. by subst r1. }
  assert (Hnodup : NoDup ((fun e => ID (Event e)) <$> events)).
  { destruct Hev as [-> | ->]; [constructor |].
    apply picked_NoDup; [done |]. apply NoDup_fst_map_to_list. }
  assert (Hsilent : (forall e', e' ∈ events -> ID (Event e') = id -> due cfg now e' = false) ->
            dir' !! (id +:+ ".json") = Some (Json r)
            /\ forall d, (d, id) ∉ omap (announcement cfg now) events).
  { intros Hnone. split.
    - rewrite Hsame; [done |]. intros e' He' Heq. apply Hnone; [done |].
      by apply json_name_inj.
    - intros d Hin. apply list_elem_of_omap in Hin as (e' & He' & Hann).
      pose proof (announcement_ID _ _ _ _ _ Hann) as Hide'.
      apply announcement_due in Hann. rewrite (Hnone e' He') in Hann; done. }
  exists w', dir', (omap (announcement cfg now) events).
  destruct (due cfg now e) eqn:Hdue;
    [destruct Hev as [-> | ->]; [| destruct (inWorkingSet now r) eqn:Hws] |].
  - destruct Hsilent as [Hfile Hno].
    { intros e' He'. by apply elem_of_nil in He'. }
    exists r. split_and!; try done; try (by right); constructor.
  - assert (He : e ∈ omap (picked env now dir) (map_to_list dir).*1).
    { apply list_elem_of_omap. exists (id +:+ ".json"). split.
      - apply listed_files. by exists (Json r).
      - unfold picked. by rewrite Hr, Hws. }
    exists (recordAfter cfg now e). split_and!; try done.
    + by apply announcement_NoDup.
    + rewrite <- Hidr, <- Hid. by apply Hset.
    + left. split; [done |]. intros d. split.
      * intros Hin. apply list_elem_of_omap in Hin as (e' & He' & Hann).
        pose proof (announcement_ID _ _ _ _ _ Hann) as Hide'.
        destruct (Hfrom e' He') as [-> _]; done.
      * intros Hann. apply list_elem_of_omap. by exists e.
  - destruct Hsilent as [Hfile Hno].
    { intros e' He' Hide'. destruct (Hfrom e' He' Hide') as [_ Hin]. congruence. }
    exists r. split_and!; try done; try (by right); by apply announcement_NoDup.
  - destruct Hsilent as [Hfile Hno].
    { intros e' He' Hide'. destruct (Hfrom e' He' Hide') as [-> _]. done. }
    exists r. split_and!; try done; try (by right); by apply announcement_NoDup.
Qed.

(** X27: the start announcement, the start check and the end
    announcement are each made at most once per event.  Over a store
    that takes every update and in which every readable record lies under
    the name of its identifier, however many turns the loop of [main]
    takes and at whatever instants, the turns together make each of these
    announcements at most once for an event, and not at all when its flag
    is already set in the stored record. *)
Theorem one_shot_announcements env cfg d id times : forall w dir r,
  accepting env ->
  disk w = Some dir ->
  consistent dir ->
  dir !! (id +:+ ".json") = Some (Json r) ->
  d <> Remind ->
  exists w' ds,
    main_loop env cfg times w = (Ok tt, w')
    /\ spoken w' = spoken w ++ ds
    /\ (announcedTimes d id ds <= 1)%nat
    /\ (flagOf d r = true -> announcedTimes d id ds = 0%nat).
Proof.
  induction times as [| now rest IH]; intros w dir r Hacc Hdisk Hcons Hr Hd.
  - exists w, []. simpl. split_and!; [done | by rewrite app_nil_r | | done].
    unfold announcedTimes. simpl. lia.
  - destruct (tick_on_file env cfg now w dir id r Hacc Hdisk Hcons Hr)
      as (w1 & dir1 & ds1 & r1 & Hrun & Hd1 & Hcons1 & Hsp1 & Hnodup & Hr1 & Hstep).
    destruct (IH w1 dir1 r1 Hacc Hd1 Hcons1 Hr1 Hd)
      as (w' & ds2 & Hrest & Hsp2 & Hle2 & Hzero2).
    simpl. unfold bind. rewrite Hrun.
    exists w', (ds1 ++ ds2).
    split_and!; [done | by rewrite Hsp2, Hsp1, app_assoc | |];
      rewrite announcedTimes_app.
    + destruct Hstep as [[-> Hann] | [-> Hno]].
      * pose proof (announcedTimes_le_1 d id ds1 Hnodup) as Hle1.
        destruct (announcedTimes d id ds1) as [| k] eqn:Hk; [lia |].
        assert (Hin : (d, id) ∈ ds1) by (apply announcedTimes_pos; lia).
        apply Hann in Hin. apply announcement_sets_flag in Hin as [_ Hset]; [| done].
        rewrite (Hzero2 Hset). lia.
      * rewrite (announcedTimes_none _ _ _ (Hno d)). lia.
    + intros Hflag. destruct Hstep as [[-> Hann] | [-> Hno]].
      * rewrite <- (zoneFixed_flagOf env) in Hflag.
        rewrite (Hzero2 (recordAfter_keeps_flag _ _ _ _ Hflag)).
        rewrite announcedTimes_none; [lia |].
        intros Hin. apply Hann in Hin.
        apply announcement_sets_flag in Hin as [Hclear _]; congruence.
      * rewrite (announcedTimes_none _ _ _ (Hno d)), (Hzero2 Hflag). lia.
Qed.

Lemma one_shot_announcements_witness :
  accepting Sample.env
  /\ disk Fixture.worldFresh = Some {[ "A.json" := Json (Sample.fresh Sample.task) ]}
  /\ consistent {[ "A.json" := Json (Sample.fresh Sample.task) ]}
  /\ AnnounceStart <> Remind
  /\ exists w' ds,
       main_loop Sample.env Sample.cfg
         [Sample.clock 14 1; Sample.clock 14 2; Sample.clock 14 3] Fixture.worldFresh
         = (Ok tt, w')
       /\ spoken w' = spoken Fixture.worldFresh ++ ds
       /\ (announcedTimes AnnounceStart "A" ds <= 1)%nat
       /\ (flagOf AnnounceStart (Sample.fresh Sample.task) = true ->
           announcedTimes AnnounceStart "A" ds = 0%nat).
Proof.
  assert (H1 : accepting Sample.env) by (split; intros; reflexivity).
  assert (H2 : disk Fixture.worldFresh
               = Some {[ "A.json" := Json (Sample.fresh Sample.task) ]}) by reflexivity.
  assert (H3 : consistent {[ "A.json" := Json (Sample.fresh Sample.task) ]}).
  { intros name e H. apply lookup_singleton_Some in H as [<- [= <-]]. reflexivity. }
  assert (H4 : ({[ "A.json" := Json (Sample.fresh Sample.task) ]}
                : gmap string FileContent) !! ("A" +:+ ".json")
               = Some (Json (Sample.fresh Sample.task))) by reflexivity.
  assert (H5 : AnnounceStart <> Remind) by discriminate.
  split; [exact H1 |]. split; [exact H2 |]. split; [exact H3 |]. split; [exact H5 |].
  exact (one_shot_announcements Sample.env Sample.cfg AnnounceStart "A"
           [Sample.clock 14 1; Sample.clock 14 2; Sample.clock 14 3]
           Fixture.worldFresh _ (Sample.fresh Sample.task) H1 H2 H3 H4 H5).
Defined.
